(** * The batches cache of the on-demand ordering service

    A shallow embedding of [irohad/ordering/impl/batches_cache.cpp]:
    the counted batch sets ([BatchesContext]), the pending store of
    partially signed batches (the MST state) and the cache that composes
    them ([BatchesCache]), with the locks it takes and the notifications
    it sends recorded in a log.

    Batches are shared objects in the source.  The only update in place is
    the merge of signatures into the batch of a pending entry; the model
    performs it on the entry of [mst_pending_], and lets [mst_expirations_]
    refer to that entry instead of holding a second copy.  A set that holds
    the very object of a pending entry sees the signatures a merge adds to
    it; the model keeps in a set the batch as it was when it entered the
    set.  What is stated about a set across a merge is therefore stated
    about the identities it holds, about its count and about its batches of
    other identities, none of which a merge changes.  Assertions are not
    executed: what they say is proved where it holds. *)

From stdpp Require Import gmap strings list fin_maps.
From Stdlib Require Import ZArith NArith Lia.

Local Open Scope Z_scope.

(** ** Machine integers *)

(** [uint64_t] arithmetic: every result is reduced modulo 2^64. *)
Definition u64 (z : Z) : Z := z mod 2 ^ 64.

(** [++ts] on a [TimestampType] (an unsigned 64-bit integer). *)
Definition ts_succ (ts : N) : N := ((ts + 1) mod 2 ^ 64)%N.

(** ** Transactions and batches *)

(** Hashes are opaque blobs; a blob is represented by its value. *)
Abbreviation HashType := N (only parsing).
Abbreviation TimestampType := N (only parsing).

Record Signature := mkSignature {
  signedData : string;
  publicKey : string
}.

#[global] Instance Signature_eq_dec : EqDecision Signature.
Proof. solve_decision. Defined.

Record Transaction := mkTransaction {
  hash : HashType;
  createdTime : TimestampType;
  quorum : nat;
  signatures : list Signature
}.

Record TransactionBatch := mkBatch {
  reducedHash : HashType;
  transactions : list Transaction
}.

(** Modelled from the spec: [Transaction::addSignature] is declared outside
    this file.  It returns whether the signature was new; a new signature is
    appended to the transaction, a known one leaves it as it is. *)
Definition addSignature (tx : Transaction) (sd pk : string) : Transaction * bool :=
  let s := mkSignature sd pk in
  if decide (s ∈ signatures tx) then (tx, false)
  else (mkTransaction (hash tx) (createdTime tx) (quorum tx)
          (signatures tx ++ [s]), true).

(** Modelled from the spec: the ordering of [BatchesSetType] is declared in
    the header.  A batch is identified by its reduced hash, so that a batch
    compares equal to itself across clones and signature states. *)
Definition batch_id (b : TransactionBatch) : HashType := reducedHash b.

(** Modelled from the spec: [TransactionBatch::hasAllSignatures] is declared
    outside this file.  It is true iff every required signature is present:
    a transaction carries the number of signatures it requires ([quorum]),
    and a batch is complete when each transaction has at least that many. *)
Definition hasAllSignatures (b : TransactionBatch) : bool :=
  forallb (λ tx, quorum tx <=? length (signatures tx))%nat (transactions b).

(** [batch->transactions().size()] as a [size_t]. *)
Definition txs_size (b : TransactionBatch) : Z := Z.of_nat (length (transactions b)).

(** The predicate of [remove] and of the pending prune:
    [std::any_of] over the transactions, [hashes.find(tx->hash()) != end]. *)
Definition touches (hashes : gset N) (b : TransactionBatch) : bool :=
  existsb (λ tx, bool_decide (hash tx ∈ hashes)) (transactions b).

(** ** oldestTimestamp *)

Definition oldestTimestamp (batch : TransactionBatch) : TimestampType :=
  foldl (λ ts tx, N.min ts (createdTime tx)) 0%N (transactions batch).

(** ** mergeSignaturesInBatch *)

(** The inner [for] over the donor's signatures.  [idx] is the position of
    the target transaction, which is what [diff] refers to. *)
Fixpoint merge_tx (idx : nat) (target_tx : Transaction) (sigs : list Signature)
    (inserted : bool) (diff : list nat) : Transaction * bool * list nat :=
  match sigs with
  | [] => (target_tx, inserted, diff)
  | s :: sigs' =>
      let '(tx', new) := addSignature target_tx (signedData s) (publicKey s) in
      if new then merge_tx idx tx' sigs' true (diff ++ [idx])
      else merge_tx idx tx' sigs' inserted diff
  end.

(** The [while] over both transaction sequences; it stops when either
    iterator reaches its end, the rest of the target is left as it is. *)
Fixpoint merge_txs (idx : nat) (targets donors : list Transaction)
    (inserted : bool) (diff : list nat)
    : list Transaction * bool * list nat :=
  match targets, donors with
  | target_tx :: targets', donor_tx :: donors' =>
      let '(tx', inserted', diff') :=
        merge_tx idx target_tx (signatures donor_tx) inserted diff in
      let '(rest, inserted'', diff'') :=
        merge_txs (S idx) targets' donors' inserted' diff' in
      (tx' :: rest, inserted'', diff'')
  | _, _ => (targets, inserted, diff)
  end.

(** The target is updated in place: the new target is returned with the
    flag and the extended [diff]. *)
Definition mergeSignaturesInBatch (target donor : TransactionBatch)
    (diff : list nat) : TransactionBatch * bool * list nat :=
  let '(txs, inserted_new_signatures, diff') :=
    merge_txs 0 (transactions target) (transactions donor) false diff in
  (mkBatch (reducedHash target) txs, inserted_new_signatures, diff').

(** ** BatchesContext: a set of batches with a maintained count *)

Module BatchesContext.

Record t := mk {
  batches_ : gmap N TransactionBatch;
  tx_count_ : Z
}.

Definition empty : t := mk ∅ 0.

(** [std::accumulate] over the set, in [unsigned long long]. *)
Definition count (src : gmap N TransactionBatch) : Z :=
  map_fold (λ _ batch sum, u64 (sum + txs_size batch)) 0 src.

Definition getTxsCount (c : t) : Z := tx_count_ c.

Definition insert (batch : TransactionBatch) (c : t) : bool * t :=
  match batches_ c !! batch_id batch with
  | None =>
      (true, mk (<[batch_id batch := batch]> (batches_ c))
                (u64 (tx_count_ c + txs_size batch)))
  | Some _ => (false, c)
  end.

Definition removeBatch (batch : TransactionBatch) (c : t) : bool * t :=
  let was := size (batches_ c) in
  let erased := delete (batch_id batch) (batches_ c) in
  if decide (size erased ≠ was)
  then (true, mk erased (u64 (tx_count_ c - txs_size batch)))
  else (false, mk erased (tx_count_ c)).

(** One turn of the loop of [merge] at the element [b] stored under [k]
    in [from]. *)
Definition merge_step (k : N) (b : TransactionBatch) (acc : t * t) : t * t :=
  let '(self, from) := acc in
  match batches_ self !! batch_id b with
  | None =>
      let tx_count := txs_size b in
      (mk (<[batch_id b := b]> (batches_ self)) (u64 (tx_count_ self + tx_count)),
       mk (delete k (batches_ from)) (u64 (tx_count_ from - tx_count)))
  | Some _ => acc
  end.

(** [self.merge(from)]: the pair of both contexts afterwards. *)
Definition merge (self from : t) : t * t :=
  map_fold merge_step (self, from) (batches_ from).

(** Modelled from the spec: the member template [remove(pred)] is defined
    in the header.  It removes every batch for which the predicate holds
    and decrements the count by the size of each removed batch. *)
Definition remove_step (pred : TransactionBatch → bool)
    (k : N) (b : TransactionBatch) (acc : t) : t :=
  if pred b
  then mk (delete k (batches_ acc)) (u64 (tx_count_ acc - txs_size b))
  else acc.

Definition remove (pred : TransactionBatch → bool) (c : t) : t :=
  map_fold (remove_step pred) c (batches_ c).

(** Every batch is stored under its own identity. *)
Definition keyed (m : gmap N TransactionBatch) : Prop :=
  ∀ k b, m !! k = Some b → batch_id b = k.

(** The audit the code asserts after every mutation. *)
Definition counted (c : t) : Prop := tx_count_ c = count (batches_ c).

Definition ok (c : t) : Prop := keyed (batches_ c) ∧ counted c.

(** The sum of the claim, without wrap-around. *)
Definition total_txs (m : gmap N TransactionBatch) : Z :=
  map_fold (λ _ batch sum, sum + txs_size batch) 0 m.

End BatchesContext.

(** ** Locks, notifications and the monad of the cache's methods *)

(** [L_pending] is the mutex inside [mst_state_] (taken by
    [exclusiveAccess]); [L_cache] is [batches_cache_cs_]. *)
Inductive Lock := L_pending | L_cache.

Inductive EventTypes := kOnMstStateUpdate | kOnMstPreparedBatches.

#[global] Instance Lock_eq_dec : EqDecision Lock.
Proof. solve_decision. Defined.

#[global] Instance EventTypes_eq_dec : EqDecision EventTypes.
Proof. solve_decision. Defined.

(** What a method does that an observer can see, in order.  The payload of
    a notification is [Some b] when the argument expression denotes the
    batch [b].  [None] stands for the one argument that denotes nothing, a
    name that is not declared where it is used; nothing is stated about that
    payload. *)
Inductive Action :=
| Acquire (l : Lock)
| Release (l : Lock)
| Notify (e : EventTypes) (payload : option TransactionBatch).

Module BatchesCache.

Record BatchInfo := mkInfo {
  batch : TransactionBatch;
  timestamp : TimestampType
}.

(** [mst_expirations_] maps a timestamp to the batch that [mst_pending_]
    holds too: the shared pointer is represented by the reduced hash under
    which [mst_pending_] stores the object.  [mst_diff] holds pointers to
    transactions of the merge target, represented by their positions. *)
Record MSTState := mkMST {
  mst_pending_ : gmap N BatchInfo;
  mst_expirations_ : gmap N N;
  mst_diff : list nat
}.

Record t := mk {
  mst_state_ : MSTState;
  batches_cache_ : BatchesContext.t;
  used_batches_cache_ : BatchesContext.t
}.

Definition empty : t :=
  mk (mkMST ∅ ∅ []) BatchesContext.empty BatchesContext.empty.

(** The cache, the locks the running thread owns, and the log. *)
Record World := mkWorld {
  data : t;
  pending_held : bool;
  cache_held : bool;
  log : list Action
}.

(** A method called by a thread that owns no lock. *)
Definition idle (c : t) : World := mkWorld c false false [].

(** A call returns, or it does not: [Deadlock l] is the call that locks the
    mutex [l] while the calling thread owns it (neither mutex is recursive;
    the behaviour is undefined, the thread blocks or the lock fails), and
    [Livelock] the call that spins for ever in the probe loop.  The world of
    such an outcome is the one in which the call stopped. *)
Inductive Outcome (A : Type) : Type :=
| Returned (a : A) (w : World)
| Deadlock (l : Lock) (w : World)
| Livelock (w : World).
Arguments Returned {A} a w.
Arguments Deadlock {A} l w.
Arguments Livelock {A} w.

Definition M (A : Type) : Type := World → Outcome A.

Definition ret {A} (a : A) : M A := λ w, Returned a w.

Definition bind {A B} (m : M A) (k : A → M B) : M B :=
  λ w, match m w with
       | Returned a w' => k a w'
       | Deadlock l w' => Deadlock l w'
       | Livelock w' => Livelock w'
       end.

Declare Scope cache_scope.
Delimit Scope cache_scope with cache.
Notation "x <- m ;; k" := (bind m (λ x, k))
  (at level 100, m at next level, right associativity) : cache_scope.
Notation "m ;; k" := (bind m (λ _, k))
  (at level 100, right associativity) : cache_scope.
Local Open Scope cache_scope.

Definition held (l : Lock) (w : World) : bool :=
  match l with L_pending => pending_held w | L_cache => cache_held w end.

Definition set_held (l : Lock) (v : bool) (w : World) : World :=
  match l with
  | L_pending => mkWorld (data w) v (cache_held w) (log w)
  | L_cache => mkWorld (data w) (pending_held w) v (log w)
  end.

Definition record (a : Action) (w : World) : World :=
  mkWorld (data w) (pending_held w) (cache_held w) (log w ++ [a]).

Definition lock (l : Lock) : M unit :=
  λ w, if held l w then Deadlock l w
       else Returned () (record (Acquire l) (set_held l true w)).

Definition unlock (l : Lock) : M unit :=
  λ w, Returned () (record (Release l) (set_held l false w)).

(** A scope that owns [l]: [std::unique_lock], [std::shared_lock], or the
    body of [exclusiveAccess]. *)
Definition with_lock {A} (l : Lock) (body : M A) : M A :=
  lock l ;; r <- body ;; unlock l ;; ret r.

(** [getSubscription()->notify(event, payload)]. *)
Definition notify (e : EventTypes) (payload : option TransactionBatch) : M unit :=
  λ w, Returned () (record (Notify e payload) w).

Definition get : M t := λ w, Returned (data w) w.

Definition put (c : t) : M unit :=
  λ w, Returned () (mkWorld c (pending_held w) (cache_held w) (log w)).

Definition spin {A} : M A := λ w, Livelock w.

Definition set_mst (st : MSTState) (c : t) : t :=
  mk st (batches_cache_ c) (used_batches_cache_ c).

Definition set_batches (b : BatchesContext.t) (c : t) : t :=
  mk (mst_state_ c) b (used_batches_cache_ c).

(** *** insertMSTCache *)

(** [while (!mst_expirations_.emplace(ts, batch).second) ++ts;]
    the first timestamp from [ts] upwards that is not a key yet.  One more
    turn than there are keys is enough whenever a free key exists. *)
Fixpoint probe (expirations : gmap N N) (ts : N) (fuel : nat) : option N :=
  match fuel with
  | O => None
  | S fuel' =>
      match expirations !! ts with
      | None => Some ts
      | Some _ => probe expirations (ts_succ ts) fuel'
      end
  end.

Definition insertMSTCache (batch : TransactionBatch) : M unit :=
  with_lock L_pending (
    c <- get ;;
    let mst_state := mst_state_ c in
    match mst_pending_ mst_state !! reducedHash batch with
    | None =>
        let ts0 := oldestTimestamp batch in
        match probe (mst_expirations_ mst_state) ts0
                    (S (size (mst_expirations_ mst_state))) with
        | Some ts =>
            put (set_mst
                   (mkMST (<[reducedHash batch := mkInfo batch ts]>
                             (mst_pending_ mst_state))
                          (<[ts := reducedHash batch]>
                             (mst_expirations_ mst_state))
                          (mst_diff mst_state)) c) ;;
            notify kOnMstStateUpdate (Some batch)
        | None => spin (* every timestamp is taken: the loop never ends *)
        end
    | Some it_batch =>
        let '(target, inserted, diff) :=
          mergeSignaturesInBatch (BatchesCache.batch it_batch) batch [] in
        let merged :=
          mkMST (<[reducedHash batch := mkInfo target (timestamp it_batch)]>
                    (mst_pending_ mst_state))
                (mst_expirations_ mst_state) diff in
        put (set_mst merged c) ;;
        if inserted then
          if hasAllSignatures target then
            with_lock L_cache (
              c' <- get ;;
              put (set_batches
                     (BatchesContext.insert target (batches_cache_ c')).2 c')) ;;
            c' <- get ;;
            put (set_mst
                   (mkMST (delete (reducedHash batch) (mst_pending_ merged))
                          (delete (timestamp it_batch) (mst_expirations_ merged))
                          (mst_diff merged)) c') ;;
            (* read through [it_batch], erased on the line before: the entry
               it designated held the merged batch *)
            notify kOnMstPreparedBatches (Some target)
          else notify kOnMstStateUpdate (Some target)
        else ret ()
    end).

(** *** removeMSTCache *)

Definition erase_entry (rh : HashType) (it : BatchInfo) (st : MSTState) : MSTState :=
  mkMST (delete rh (mst_pending_ st))
        (delete (timestamp it) (mst_expirations_ st))
        (mst_diff st).

Definition removeMSTCache (batch : TransactionBatch) : M unit :=
  with_lock L_pending (
    c <- get ;;
    let mst_state := mst_state_ c in
    match mst_pending_ mst_state !! reducedHash batch with
    | Some it => put (set_mst (erase_entry (reducedHash batch) it mst_state) c)
    | None => ret ()
    end).

(** One turn of the loop over [mst_pending_] in the overload that takes
    the set of hashes. *)
Definition prune_step (hashes : gset N) (rh : N) (batch_info : BatchInfo)
    (st : MSTState) : MSTState :=
  let need_remove := touches hashes (batch batch_info) in
  if need_remove then erase_entry rh batch_info st else st.

Definition prune (hashes : gset N) (st : MSTState) : MSTState :=
  map_fold (prune_step hashes) st (mst_pending_ st).

Definition removeMSTCache_hashes (hashes : gset N) : M unit :=
  with_lock L_pending (
    c <- get ;;
    put (set_mst (prune hashes (mst_state_ c)) c)).

(** *** insert *)

Definition insert (batch : TransactionBatch) : M Z :=
  with_lock L_cache (
    (if hasAllSignatures batch then
       c <- get ;;
       (match BatchesContext.batches_ (used_batches_cache_ c) !! batch_id batch with
        | None =>
            put (set_batches
                   (BatchesContext.insert batch (batches_cache_ c)).2 c)
        | Some _ => ret ()
        end) ;;
       removeMSTCache batch ;;
       (* the argument on line 183, [it_batch->second.batch], names an
          iterator that this function does not declare: the source gives the
          event no batch, and no property below speaks of this payload *)
       notify kOnMstPreparedBatches None
     else insertMSTCache batch) ;;
    c <- get ;;
    ret (BatchesContext.getTxsCount (batches_cache_ c))).

(** *** remove *)

Definition remove (hashes : gset N) : M unit :=
  removeMSTCache_hashes hashes ;;
  with_lock L_cache (
    c <- get ;;
    let '(available, used) :=
      BatchesContext.merge (batches_cache_ c) (used_batches_cache_ c) in
    put (mk (mst_state_ c)
            (BatchesContext.remove (touches hashes) available)
            used)).

(** *** the readers *)

Definition isEmpty : M bool :=
  with_lock L_cache (
    c <- get ;;
    ret (bool_decide (BatchesContext.batches_ (batches_cache_ c) = ∅))).

Definition txsCount : M Z :=
  with_lock L_cache (
    c <- get ;;
    ret (u64 (BatchesContext.getTxsCount (batches_cache_ c)
              + BatchesContext.getTxsCount (used_batches_cache_ c)))).

Definition availableTxsCount : M Z :=
  with_lock L_cache (
    c <- get ;;
    ret (BatchesContext.getTxsCount (batches_cache_ c))).

(** *** forCachedBatches *)

(** The callback receives the set of available batches by reference; it is
    represented by what it makes of the set.  The count is not the
    callback's to see. *)
Definition forCachedBatches
    (f : gmap N TransactionBatch → gmap N TransactionBatch) : M unit :=
  with_lock L_cache (
    c <- get ;;
    put (set_batches
           (BatchesContext.mk (f (BatchesContext.batches_ (batches_cache_ c)))
                              (BatchesContext.tx_count_ (batches_cache_ c))) c)).

(** *** processReceivedProposal *)

Definition claim_step (c : t) (batch : TransactionBatch) : t :=
  mk (mst_state_ c)
     (BatchesContext.removeBatch batch (batches_cache_ c)).2
     (BatchesContext.insert batch (used_batches_cache_ c)).2.

Definition processReceivedProposal (batches : list TransactionBatch) : M unit :=
  with_lock L_cache (
    c <- get ;;
    put (foldl claim_step c batches)).

(** *** Reading a log *)

(** The notifications of a log, in order. *)
Definition notifications (l : list Action) : list (EventTypes * option TransactionBatch) :=
  omap (λ a, match a with Notify e p => Some (e, p) | _ => None end) l.

(** How many times [kOnMstPreparedBatches] was sent. *)
Definition prepared_count (l : list Action) : nat :=
  length (filter (λ n, n.1 = kOnMstPreparedBatches) (notifications l)).

(** The lock discipline of the spec: [L_pending] is never acquired by a
    thread that owns [L_cache].  [cache_owned] tells whether the thread
    owns [L_cache] before the first action. *)
Fixpoint lock_order_ok (cache_owned : bool) (l : list Action) : bool :=
  match l with
  | [] => true
  | Acquire L_pending :: l' => negb cache_owned && lock_order_ok cache_owned l'
  | Acquire L_cache :: l' => lock_order_ok true l'
  | Release L_cache :: l' => lock_order_ok false l'
  | _ :: l' => lock_order_ok cache_owned l'
  end.

(** The world in which a call ended. *)
Definition world_of {A} (o : Outcome A) : World :=
  match o with Returned _ w | Deadlock _ w | Livelock w => w end.

End BatchesCache.

(** ** Calls and reachable states *)

(** The methods that change the cache. *)
Inductive Call :=
| call_insert (batch : TransactionBatch)
| call_remove (hashes : gset N)
| call_processReceivedProposal (batches : list TransactionBatch)
| call_insertMSTCache (batch : TransactionBatch)
| call_removeMSTCache (batch : TransactionBatch)
| call_removeMSTCache_hashes (hashes : gset N).

(** The world a call ends in, whether it returns or never does. *)
Definition exec (k : Call) (w : BatchesCache.World) : BatchesCache.World :=
  match k with
  | call_insert b => BatchesCache.world_of (BatchesCache.insert b w)
  | call_remove h => BatchesCache.world_of (BatchesCache.remove h w)
  | call_processReceivedProposal bs =>
      BatchesCache.world_of (BatchesCache.processReceivedProposal bs w)
  | call_insertMSTCache b => BatchesCache.world_of (BatchesCache.insertMSTCache b w)
  | call_removeMSTCache b => BatchesCache.world_of (BatchesCache.removeMSTCache b w)
  | call_removeMSTCache_hashes h =>
      BatchesCache.world_of (BatchesCache.removeMSTCache_hashes h w)
  end.

(** The states of the cache that calls can produce from the empty cache. *)
Inductive reachable : BatchesCache.t → Prop :=
| reachable_empty : reachable BatchesCache.empty
| reachable_call c k :
    reachable c → reachable (BatchesCache.data (exec k (BatchesCache.idle c))).

(** A property of the cache that a method keeps, in the world where the
    call ends, whether it returns or not. *)
Definition stable (I : BatchesCache.t → Prop) {A} (m : BatchesCache.M A) : Prop :=
  ∀ w, I (BatchesCache.data w) →
       I (BatchesCache.data (BatchesCache.world_of (m w))).

(** The states that [insert], [remove] and [processReceivedProposal] produce
    from the empty cache. *)
Inductive api_reachable : BatchesCache.t → Prop :=
| api_empty : api_reachable BatchesCache.empty
| api_insert c b :
    api_reachable c →
    api_reachable (BatchesCache.data (exec (call_insert b) (BatchesCache.idle c)))
| api_remove c hashes :
    api_reachable c →
    api_reachable (BatchesCache.data (exec (call_remove hashes) (BatchesCache.idle c)))
| api_processReceivedProposal c batches :
    api_reachable c →
    api_reachable
      (BatchesCache.data
         (exec (call_processReceivedProposal batches) (BatchesCache.idle c))).

(** Both sets store every batch under its identity, and no identity is in
    both. *)
Definition sets_inv (c : BatchesCache.t) : Prop :=
  BatchesContext.keyed (BatchesContext.batches_ (BatchesCache.batches_cache_ c))
  ∧ BatchesContext.keyed (BatchesContext.batches_ (BatchesCache.used_batches_cache_ c))
  ∧ BatchesContext.batches_ (BatchesCache.batches_cache_ c)
      ##ₘ BatchesContext.batches_ (BatchesCache.used_batches_cache_ c).

(** ** What the methods compute

    The cache a call leaves behind when it is made by a thread that owns no
    lock, as a function of the cache before; the run lemmas below relate
    these to the methods. *)

(** [insert] of a batch that has all signatures. *)
Definition insert_complete (batch : TransactionBatch) (c : BatchesCache.t)
    : BatchesCache.t :=
  BatchesCache.mk
    (match BatchesCache.mst_pending_ (BatchesCache.mst_state_ c) !! reducedHash batch with
     | Some it =>
         BatchesCache.erase_entry (reducedHash batch) it (BatchesCache.mst_state_ c)
     | None => BatchesCache.mst_state_ c
     end)
    (match BatchesContext.batches_ (BatchesCache.used_batches_cache_ c)
             !! batch_id batch with
     | None => (BatchesContext.insert batch (BatchesCache.batches_cache_ c)).2
     | Some _ => BatchesCache.batches_cache_ c
     end)
    (BatchesCache.used_batches_cache_ c).

(** [remove]. *)
Definition removed (hashes : gset N) (c : BatchesCache.t) : BatchesCache.t :=
  let merged :=
    BatchesContext.merge (BatchesCache.batches_cache_ c)
                         (BatchesCache.used_batches_cache_ c) in
  BatchesCache.mk
    (BatchesCache.prune hashes (BatchesCache.mst_state_ c))
    (BatchesContext.remove (touches hashes) merged.1)
    merged.2.

(** [processReceivedProposal]. *)
Definition claimed (batches : list TransactionBatch) (c : BatchesCache.t)
    : BatchesCache.t :=
  foldl BatchesCache.claim_step c batches.

(** The pending store after [insertMSTCache] has merged a donor into the
    entry [it]: the entry holds the merged [target] under its old
    timestamp. *)
Definition merged_state (c : BatchesCache.t) (rh : N) (it : BatchesCache.BatchInfo)
    (target : TransactionBatch) (diff : list nat) : BatchesCache.MSTState :=
  BatchesCache.mkMST
    (<[rh := BatchesCache.mkInfo target (BatchesCache.timestamp it)]>
       (BatchesCache.mst_pending_ (BatchesCache.mst_state_ c)))
    (BatchesCache.mst_expirations_ (BatchesCache.mst_state_ c)) diff.

(** ** Signature sets *)

(** The signatures of [r] are those of [t] together with those of [d]. *)
Definition tx_union (r t d : Transaction) : Prop :=
  ∀ s, s ∈ signatures r ↔ s ∈ signatures t ∨ s ∈ signatures d.

(** [R] is the logical batch of [P1] and, transaction by transaction, its
    signature set is the union of those of [P1] and [P2]. *)
Definition sigs_union (R P1 P2 : TransactionBatch) : Prop :=
  reducedHash R = reducedHash P1
  ∧ Forall3 tx_union (transactions R) (transactions P1) (transactions P2).

(** The batch the cache holds for a reduced hash: the pending one, or else
    the available one. *)
Definition resident (c : BatchesCache.t) (rh : N) : option TransactionBatch :=
  match BatchesCache.mst_pending_ (BatchesCache.mst_state_ c) !! rh with
  | Some it => Some (BatchesCache.batch it)
  | None => BatchesContext.batches_ (BatchesCache.batches_cache_ c) !! rh
  end.

(** What [processReceivedProposal] has done to a cache [c] whose claimed
    batches [batches] were all available: they moved to the used set, and
    both counters moved with them. *)
Definition claim_inv (batches : list TransactionBatch) (c c' : BatchesCache.t) : Prop :=
  let a := BatchesCache.batches_cache_ c in
  let u := BatchesCache.used_batches_cache_ c in
  let a' := BatchesCache.batches_cache_ c' in
  let u' := BatchesCache.used_batches_cache_ c' in
  BatchesCache.mst_state_ c' = BatchesCache.mst_state_ c
  ∧ (∀ k, BatchesContext.batches_ a' !! k
          = if decide (k ∈ batch_id <$> batches) then None
            else BatchesContext.batches_ a !! k)
  ∧ (∀ k, BatchesContext.batches_ u' !! k
          = if decide (k ∈ batch_id <$> batches)
            then BatchesContext.batches_ a !! k
            else BatchesContext.batches_ u !! k)
  ∧ u64 (BatchesContext.tx_count_ a' + BatchesContext.tx_count_ u')
    = u64 (BatchesContext.tx_count_ a + BatchesContext.tx_count_ u)
  ∧ (BatchesContext.ok a → BatchesContext.ok a')
  ∧ (BatchesContext.ok u → BatchesContext.ok u').

(** ** The invariant of the pending store *)

(** Both indices have the same size, an entry of [mst_pending_] is filed in
    [mst_expirations_] under its own timestamp, and every key of
    [mst_expirations_] is the timestamp of the entry it refers to. *)
Definition pending_inv (st : BatchesCache.MSTState) : Prop :=
  size (BatchesCache.mst_pending_ st) = size (BatchesCache.mst_expirations_ st)
  ∧ (∀ rh info,
       BatchesCache.mst_pending_ st !! rh = Some info →
       BatchesCache.mst_expirations_ st !! BatchesCache.timestamp info = Some rh)
  ∧ (∀ ts rh,
       BatchesCache.mst_expirations_ st !! ts = Some rh →
       ∃ info, BatchesCache.mst_pending_ st !! rh = Some info
               ∧ BatchesCache.timestamp info = ts).

(** The invariant, as a property of the cache. *)
Definition pending_ok (c : BatchesCache.t) : Prop :=
  pending_inv (BatchesCache.mst_state_ c).

(** What the loop of [BatchesContext::merge] has done after the elements [m]
    of [from]. *)
Definition merge_inv (self from : BatchesContext.t)
    (m : gmap N TransactionBatch) (r : BatchesContext.t * BatchesContext.t) : Prop :=
  (∀ k, BatchesContext.batches_ r.1 !! k
        = match BatchesContext.batches_ self !! k with
          | Some b => Some b
          | None => m !! k
          end)
  ∧ (∀ k, BatchesContext.batches_ r.2 !! k
          = match BatchesContext.batches_ self !! k, m !! k with
            | None, Some _ => None
            | _, _ => BatchesContext.batches_ from !! k
            end)
  ∧ (BatchesContext.counted self → BatchesContext.counted r.1)
  ∧ (BatchesContext.counted from → BatchesContext.counted r.2).

(** ** The laws of the specification that the code does not keep as stated *)

(** A complete batch inserted twice: both calls return the same count, the
    second changes nothing, and [kOnMstPreparedBatches] is sent once, by the
    first call only. *)
Definition prepared_once_as_stated (b : TransactionBatch) (c : BatchesCache.t) : Prop :=
  ∃ n w1 w2,
    BatchesCache.insert b (BatchesCache.idle c) = BatchesCache.Returned n w1
    ∧ BatchesCache.insert b (BatchesCache.idle (BatchesCache.data w1))
      = BatchesCache.Returned n w2
    ∧ BatchesCache.data w2 = BatchesCache.data w1
    ∧ BatchesCache.prepared_count (BatchesCache.log w1) = 1%nat
    ∧ BatchesCache.prepared_count (BatchesCache.log w2) = 0%nat.

(** Claiming any collection of batches and resolving with no hash gives the
    available set back as it was, members and count. *)
Definition claim_roundtrip_as_stated (batches : list TransactionBatch)
    (c : BatchesCache.t) : Prop :=
  (∀ b1 b2 b, batches = b1 ++ b :: b2 → b ∈ b1 →
     BatchesCache.processReceivedProposal batches (BatchesCache.idle c)
     = BatchesCache.processReceivedProposal (b1 ++ b2) (BatchesCache.idle c))
  ∧ ∃ w1 w2,
      BatchesCache.processReceivedProposal batches (BatchesCache.idle c)
      = BatchesCache.Returned () w1
      ∧ BatchesCache.remove ∅ (BatchesCache.idle (BatchesCache.data w1))
        = BatchesCache.Returned () w2
      ∧ BatchesCache.batches_cache_ (BatchesCache.data w2)
        = BatchesCache.batches_cache_ c.

(** ** Sample batches *)

Definition sig_alice : Signature := mkSignature "a1" "alice".
Definition sig_bob : Signature := mkSignature "b2" "bob".

(** One transaction, created at time 10, that needs two signatures. *)
Definition sample_tx (sigs : list Signature) : Transaction :=
  mkTransaction 7 10 2 sigs.

Definition partial_alice : TransactionBatch := mkBatch 100 [sample_tx [sig_alice]].
Definition partial_bob : TransactionBatch := mkBatch 100 [sample_tx [sig_bob]].
Definition complete_batch : TransactionBatch :=
  mkBatch 100 [sample_tx [sig_alice; sig_bob]].

(** A cache whose available set holds [complete_batch] only. *)
Definition one_available : BatchesCache.t :=
  BatchesCache.mk (BatchesCache.mkMST ∅ ∅ [])
    (BatchesContext.mk {[ 100%N := complete_batch ]} 1)
    BatchesContext.empty.

(** The cache after [complete_batch] was claimed for a proposal: the used
    set holds it, the available set is empty. *)
Definition one_claimed : BatchesCache.t :=
  BatchesCache.mk (BatchesCache.mkMST ∅ ∅ [])
    BatchesContext.empty
    (BatchesContext.mk {[ 100%N := complete_batch ]} 1).

(** Another logical batch: one transaction of hash 8, signed as required. *)
Definition other_batch : TransactionBatch :=
  mkBatch 200 [mkTransaction 8 20 1 [sig_alice]].

(** A set of two batches, one of them of the identity of [complete_batch]. *)
Definition two_batches : BatchesContext.t :=
  BatchesContext.mk {[ 100%N := partial_alice; 200%N := other_batch ]} 2.

(** A cache with [complete_batch] available and [other_batch] claimed. *)
Definition two_sets : BatchesCache.t :=
  BatchesCache.mk (BatchesCache.mkMST ∅ ∅ [])
    (BatchesContext.mk {[ 100%N := complete_batch ]} 1)
    (BatchesContext.mk {[ 200%N := other_batch ]} 1).

(** ** Notions for the further properties *)

(** [t'] is [t] with signatures appended, and nothing else changed. *)
Definition tx_extends (t t' : Transaction) : Prop :=
  hash t' = hash t ∧ createdTime t' = createdTime t ∧ quorum t' = quorum t
  ∧ signatures t `prefix_of` signatures t'.

(** Every signature of a donor transaction is in the target transaction it
    is paired with. *)
Definition donor_covered (targets donors : list Transaction) : Prop :=
  Forall (λ p, signatures p.2 ⊆ signatures p.1) (zip targets donors).

(** Every entry of [mst_pending_] is stored under the reduced hash of its
    batch. *)
Definition pending_keyed (c : BatchesCache.t) : Prop :=
  ∀ rh it,
    BatchesCache.mst_pending_ (BatchesCache.mst_state_ c) !! rh = Some it →
    reducedHash (BatchesCache.batch it) = rh.

(** The donor [b] lacks signatures, its reduced hash is pending, and the
    merge adds a signature that completes the pending batch. *)
Definition completes_pending (b : TransactionBatch) (c : BatchesCache.t) : Prop :=
  hasAllSignatures b = false
  ∧ ∃ it,
      BatchesCache.mst_pending_ (BatchesCache.mst_state_ c) !! reducedHash b = Some it
      ∧ (mergeSignaturesInBatch (BatchesCache.batch it) b []).1.2 = true
      ∧ hasAllSignatures (mergeSignaturesInBatch (BatchesCache.batch it) b []).1.1
        = true.

(** A method called by a thread that owns no lock keeps the order of the
    locks and, when it returns, owns no lock. *)
Definition calm {A} (m : BatchesCache.M A) (c : BatchesCache.t) : Prop :=
  BatchesCache.lock_order_ok false
    (BatchesCache.log (BatchesCache.world_of (m (BatchesCache.idle c)))) = true
  ∧ ∀ a w, m (BatchesCache.idle c) = BatchesCache.Returned a w →
           BatchesCache.pending_held w = false ∧ BatchesCache.cache_held w = false.

(** The set [a'] holds the identities that [a] holds and has its count, and
    under every identity but [rh] it holds the batch that [a] holds.  This
    is what a merge of signatures into the pending batch of reduced hash
    [rh] leaves of a set: the signatures show in a set that shares the
    batch, and nothing else of the set changes. *)
Definition same_but (rh : N) (a a' : BatchesContext.t) : Prop :=
  (∀ k, is_Some (BatchesContext.batches_ a' !! k)
        ↔ is_Some (BatchesContext.batches_ a !! k))
  ∧ (∀ k, k ≠ rh →
          BatchesContext.batches_ a' !! k = BatchesContext.batches_ a !! k)
  ∧ BatchesContext.tx_count_ a' = BatchesContext.tx_count_ a.

(** How many signatures the transactions carry. *)
Definition total_sigs (txs : list Transaction) : nat :=
  sum_list ((λ t, length (signatures t)) <$> txs).

(** A cache whose pending store holds [partial_alice] only. *)
Definition one_pending : BatchesCache.t :=
  BatchesCache.data
    (BatchesCache.world_of
       (BatchesCache.insertMSTCache partial_alice
          (BatchesCache.idle BatchesCache.empty))).

(** One transaction of hash 9 that needs three signatures. *)
Definition three_party (sigs : list Signature) : TransactionBatch :=
  mkBatch 300 [mkTransaction 9 30 3 sigs].

(** The cache after the batch [p], which lacks signatures, was filed in the
    pending store and then named by a proposal: [p] is pending and in the
    used set.  In the source both hold the same object. *)
Definition pending_and_claimed (p : TransactionBatch) : BatchesCache.t :=
  BatchesCache.data
    (BatchesCache.world_of
       (BatchesCache.processReceivedProposal [p]
          (BatchesCache.idle
             (BatchesCache.data
                (BatchesCache.world_of
                   (BatchesCache.insertMSTCache p
                      (BatchesCache.idle BatchesCache.empty))))))).

(** * Properties *)

(** ** Arithmetic modulo 2^64 *)

Lemma u64_range z : 0 ≤ u64 z < 2 ^ 64.
Proof. unfold u64. apply Z.mod_pos_bound. lia. Qed.

Lemma u64_small z : 0 ≤ z < 2 ^ 64 → u64 z = z.
Proof. intros Hz. unfold u64. by apply Z.mod_small. Qed.

Lemma u64_add_l a b : u64 (u64 a + b) = u64 (a + b).
Proof. unfold u64. by rewrite Zplus_mod_idemp_l. Qed.

Lemma u64_sub_l a b : u64 (u64 a - b) = u64 (a - b).
Proof. unfold u64. by rewrite Zminus_mod_idemp_l. Qed.

Lemma u64_add_sub a b : 0 ≤ a < 2 ^ 64 → u64 (u64 (a + b) - b) = a.
Proof.
  intros Ha. rewrite u64_sub_l. replace (a + b - b) with a by lia.
  by apply u64_small.
Qed.

(** ** The audit function [count] *)

Section count_facts.
Import BatchesContext.
Implicit Types m : gmap N TransactionBatch.

Lemma count_empty : count ∅ = 0.
Proof. unfold count. by rewrite map_fold_empty. Qed.

Lemma count_step_comm (b1 b2 : TransactionBatch) y :
  u64 (u64 (y + txs_size b2) + txs_size b1)
  = u64 (u64 (y + txs_size b1) + txs_size b2).
Proof. rewrite !u64_add_l. f_equal. lia. Qed.

Lemma count_insert m k b :
  m !! k = None → count (<[k:=b]> m) = u64 (count m + txs_size b).
Proof.
  intros Hk. unfold count. rewrite map_fold_insert_L; [done| |done].
  intros. apply count_step_comm.
Qed.

Lemma count_range m : 0 ≤ count m < 2 ^ 64.
Proof.
  induction m as [|k b m Hk _ _] using map_first_key_ind.
  - rewrite count_empty. lia.
  - rewrite count_insert by done. apply u64_range.
Qed.

Lemma count_delete m k b :
  m !! k = Some b → count (delete k m) = u64 (count m - txs_size b).
Proof.
  intros Hk.
  rewrite <- (insert_delete_id m k b) at 2 by done.
  rewrite count_insert by apply lookup_delete_eq.
  symmetry. apply u64_add_sub, count_range.
Qed.

Lemma total_txs_empty : total_txs ∅ = 0.
Proof. unfold total_txs. by rewrite map_fold_empty. Qed.

Lemma total_txs_insert m k b :
  m !! k = None → total_txs (<[k:=b]> m) = total_txs m + txs_size b.
Proof.
  intros Hk. unfold total_txs. rewrite map_fold_insert_L; [done| |done].
  intros. lia.
Qed.

(** [count] is the sum of the sizes of the members, modulo 2^64. *)
Lemma count_total m : count m = u64 (total_txs m).
Proof.
  induction m as [|k b m Hk _ IH] using map_first_key_ind.
  - unfold total_txs. rewrite count_empty, map_fold_empty. done.
  - rewrite count_insert by done. unfold total_txs.
    rewrite map_fold_insert_L; [|intros; lia|done].
    fold (total_txs m). rewrite IH. apply u64_add_l.
Qed.

End count_facts.

(** ** The operations of [BatchesContext] *)

Section context_facts.
Import BatchesContext.
Implicit Types (c self from : t) (b batch : TransactionBatch).

Lemma insert_absent batch c :
  batches_ c !! batch_id batch = None →
  insert batch c
  = (true, mk (<[batch_id batch := batch]> (batches_ c))
              (u64 (tx_count_ c + txs_size batch))).
Proof. intros H. unfold insert. by rewrite H. Qed.

Lemma insert_present batch c :
  is_Some (batches_ c !! batch_id batch) → insert batch c = (false, c).
Proof. intros [b' H]. unfold insert. by rewrite H. Qed.

Lemma removeBatch_present batch c b' :
  batches_ c !! batch_id batch = Some b' →
  removeBatch batch c
  = (true, mk (delete (batch_id batch) (batches_ c))
              (u64 (tx_count_ c - txs_size batch))).
Proof.
  intros H. unfold removeBatch.
  pose proof (map_size_delete_Some (batch_id batch) (batches_ c)
                (ltac:(by eexists))) as Hs.
  assert (size (batches_ c) ≠ 0%nat)
    by (apply map_size_non_empty_iff; intros E; by rewrite E in H).
  rewrite decide_True by lia. done.
Qed.

Lemma removeBatch_absent batch c :
  batches_ c !! batch_id batch = None → removeBatch batch c = (false, c).
Proof.
  intros H. unfold removeBatch. rewrite delete_id by done.
  rewrite decide_False by (intros E; by apply E). by destruct c.
Qed.

Lemma removeBatch_batches batch c :
  batches_ (removeBatch batch c).2 = delete (batch_id batch) (batches_ c).
Proof. unfold removeBatch. by case_decide. Qed.

Lemma insert_holds batch c : is_Some (batches_ (insert batch c).2 !! batch_id batch).
Proof.
  unfold insert. destruct (batches_ c !! batch_id batch) eqn:E; cbn.
  - by rewrite E.
  - by rewrite lookup_insert_eq.
Qed.

Lemma insert_keeps batch c k :
  is_Some (batches_ c !! k) → is_Some (batches_ (insert batch c).2 !! k).
Proof.
  intros Hk. unfold insert. destruct (batches_ c !! batch_id batch) eqn:E; cbn.
  - done.
  - rewrite lookup_insert. by case_decide.
Qed.

Lemma insert_keyed batch c : keyed (batches_ c) → keyed (batches_ (insert batch c).2).
Proof.
  intros Hk. unfold insert.
  destruct (batches_ c !! batch_id batch) eqn:E; [done|]. simpl.
  intros k b. rewrite lookup_insert. case_decide; [|by apply Hk].
  by intros [= <-].
Qed.

Lemma insert_ok batch c : ok c → ok (insert batch c).2.
Proof.
  intros [Hk Hc]. split; [by apply insert_keyed|].
  unfold insert. destruct (batches_ c !! batch_id batch) eqn:E; [done|].
  unfold counted in *. simpl. rewrite count_insert by done. by rewrite Hc.
Qed.

Lemma removeBatch_keyed batch c :
  keyed (batches_ c) → keyed (batches_ (removeBatch batch c).2).
Proof.
  intros Hk. unfold removeBatch. case_decide; simpl;
    intros k b [_ Hkb]%lookup_delete_Some; by apply Hk.
Qed.

Lemma removeBatch_ok batch c :
  ok c →
  (∀ b', batches_ c !! batch_id batch = Some b' → txs_size b' = txs_size batch) →
  ok (removeBatch batch c).2.
Proof.
  intros [Hk Hc] Hsz. split; [by apply removeBatch_keyed|].
  destruct (batches_ c !! batch_id batch) as [b'|] eqn:E.
  - rewrite (removeBatch_present _ _ _ E). unfold counted in *. simpl.
    rewrite (count_delete _ _ _ E), (Hsz _ eq_refl). by rewrite Hc.
  - by rewrite (removeBatch_absent _ _ E).
Qed.

Lemma merge_loop self from (m : gmap N TransactionBatch) :
  keyed (batches_ from) → m ⊆ batches_ from →
  merge_inv self from m (map_fold merge_step (self, from) m).
Proof.
  intros Hkf.
  induction m as [|i x m Hi Hfirst IH] using map_first_key_ind; intros Hsub.
  { rewrite map_fold_empty. repeat split; simpl; try done;
      intros k; rewrite lookup_empty; by destruct (batches_ self !! k). }
  rewrite map_fold_insert_first_key by done.
  assert (batches_ from !! i = Some x) as Hfi.
  { eapply lookup_weaken; [|exact Hsub]. apply lookup_insert_eq. }
  assert (m ⊆ batches_ from) as Hsub'.
  { etrans; [|exact Hsub]. by apply insert_subseteq. }
  destruct (IH Hsub') as (H1 & H2 & H3 & H4).
  destruct (map_fold merge_step (self, from) m) as [s f]. simpl in *.
  assert (batch_id x = i) as Hid by (by apply Hkf).
  unfold merge_step. rewrite Hid.
  assert (batches_ f !! i = Some x) as Hf.
  { rewrite H2, Hi. by destruct (batches_ self !! i). }
  destruct (batches_ s !! i) as [b'|] eqn:Es.
  - (* already in [self]: left in [from] *)
    rewrite H1, Hi in Es. destruct (batches_ self !! i) as [b''|] eqn:E0; [|done].
    repeat split; simpl; try done.
    + intros k. rewrite H1. destruct (decide (k = i)) as [->|].
      * by rewrite E0.
      * by rewrite lookup_insert_ne.
    + intros k. rewrite H2. destruct (decide (k = i)) as [->|].
      * by rewrite E0.
      * by rewrite lookup_insert_ne.
  - (* moved across *)
    rewrite H1, Hi in Es. destruct (batches_ self !! i) eqn:E0; [done|].
    repeat split; simpl.
    + intros k. rewrite (lookup_insert _ i k), (lookup_insert m i k).
      case_decide as Hk; [subst k; by rewrite E0|]. apply H1.
    + intros k. rewrite (lookup_delete _ i k), (lookup_insert m i k).
      case_decide as Hk; [subst k; by rewrite E0|]. apply H2.
    + intros Hc. unfold counted in *. simpl. rewrite count_insert.
      * by rewrite (H3 Hc).
      * rewrite H1, E0. done.
    + intros Hc. unfold counted in *. simpl.
      rewrite (count_delete _ _ _ Hf). by rewrite (H4 Hc).
Qed.

Lemma merge_spec self from :
  keyed (batches_ from) →
  merge_inv self from (batches_ from) (merge self from).
Proof. intros Hk. by apply merge_loop. Qed.

Lemma merge_available self from k :
  keyed (batches_ from) →
  batches_ (merge self from).1 !! k
  = match batches_ self !! k with
    | Some b => Some b
    | None => batches_ from !! k
    end.
Proof. intros Hk. by destruct (merge_spec self from Hk) as (H & _). Qed.

Lemma merge_rest self from k :
  keyed (batches_ from) →
  batches_ (merge self from).2 !! k
  = match batches_ self !! k with
    | Some _ => batches_ from !! k
    | None => None
    end.
Proof.
  intros Hk. destruct (merge_spec self from Hk) as (_ & H & _). rewrite H.
  destruct (batches_ self !! k), (batches_ from !! k); done.
Qed.

Lemma merge_ok self from :
  ok self → ok from → ok (merge self from).1 ∧ ok (merge self from).2.
Proof.
  intros [Hks Hcs] [Hkf Hcf].
  destruct (merge_spec self from Hkf) as (H1 & H2 & H3 & H4).
  repeat split; auto.
  - intros k b. rewrite H1. destruct (batches_ self !! k) eqn:E.
    + intros [= <-]. by apply Hks.
    + apply Hkf.
  - intros k b. rewrite merge_rest by done.
    destruct (batches_ self !! k); [apply Hkf|done].
Qed.

(** The count of the receiving set when it holds none of the identities of
    the drained set: it grows by the sizes of the batches that arrive,
    whatever it was. *)
Lemma merge_count_loop self from (m : gmap N TransactionBatch) :
  keyed (batches_ from) → m ⊆ batches_ from →
  (∀ k, is_Some (m !! k) → batches_ self !! k = None) →
  let r := map_fold merge_step (self, from) m in
  u64 (tx_count_ r.1) = u64 (tx_count_ self + total_txs m)
  ∧ (0 ≤ tx_count_ self < 2 ^ 64 → 0 ≤ tx_count_ r.1 < 2 ^ 64).
Proof.
  intros Hkf.
  induction m as [|i x m Hi Hfirst IH] using map_first_key_ind;
    intros Hsub Hnew; simpl.
  { rewrite map_fold_empty, total_txs_empty. simpl. split; [f_equal; lia|done]. }
  rewrite map_fold_insert_first_key by done.
  assert (m ⊆ batches_ from) as Hsub'.
  { etrans; [|exact Hsub]. by apply insert_subseteq. }
  assert (batches_ from !! i = Some x) as Hfi.
  { eapply lookup_weaken; [|exact Hsub]. apply lookup_insert_eq. }
  assert (batch_id x = i) as Hid by (by apply Hkf).
  assert (batches_ self !! i = None) as Hsi.
  { apply Hnew. rewrite lookup_insert_eq. by eexists. }
  destruct (merge_loop self from m Hkf Hsub') as (H1 & _).
  destruct IH as [Hc Hr]; [done| |].
  { intros k Hk. apply Hnew. rewrite lookup_insert_ne; [done|].
    intros ->. rewrite Hi in Hk. by destruct Hk. }
  simpl in Hc, Hr.
  destruct (map_fold merge_step (self, from) m) as [s f]. simpl in *.
  unfold merge_step. rewrite Hid, H1, Hsi, Hi. simpl. split.
  - rewrite total_txs_insert by done.
    rewrite <- (u64_add_l (tx_count_ s)), Hc, !u64_add_l.
    unfold u64. rewrite Zmod_mod. f_equal. lia.
  - intros _. apply u64_range.
Qed.

Lemma merge_count self from :
  keyed (batches_ from) → batches_ self ##ₘ batches_ from →
  0 ≤ tx_count_ self < 2 ^ 64 →
  tx_count_ (merge self from).1 = u64 (tx_count_ self + total_txs (batches_ from)).
Proof.
  intros Hk Hd Hr.
  destruct (merge_count_loop self from (batches_ from) Hk (reflexivity _))
    as [Hc Hr'].
  { intros k [b Hb]. by eapply map_disjoint_Some_r. }
  simpl in Hc, Hr'. fold (merge self from) in Hc, Hr'.
  rewrite <- Hc. symmetry. by apply u64_small, Hr'.
Qed.

(** A predicate that holds of no batch removes nothing. *)
Lemma remove_nothing pred c : (∀ b, pred b = false) → remove pred c = c.
Proof.
  intros Hp. unfold remove.
  generalize (batches_ c) as m. intros m.
  induction m as [|i x m Hi Hfirst IH] using map_first_key_ind.
  - by rewrite map_fold_empty.
  - rewrite map_fold_insert_first_key by done. rewrite IH.
    unfold remove_step. by rewrite Hp.
Qed.

(** What the loop of [remove] has done after the elements [m]. *)
Lemma remove_loop pred c (m : gmap N TransactionBatch) :
  m ⊆ batches_ c →
  let r := map_fold (remove_step pred) c m in
  (∀ k, batches_ r !! k
        = match m !! k with
          | Some b => if pred b then None else Some b
          | None => batches_ c !! k
          end)
  ∧ (counted c → counted r).
Proof.
  induction m as [|i x m Hi Hfirst IH] using map_first_key_ind; intros Hsub.
  { simpl. rewrite map_fold_empty. split; [|done].
    intros k. by rewrite lookup_empty. }
  simpl. rewrite map_fold_insert_first_key by done.
  assert (batches_ c !! i = Some x) as Hci.
  { eapply lookup_weaken; [|exact Hsub]. apply lookup_insert_eq. }
  assert (m ⊆ batches_ c) as Hsub'.
  { etrans; [|exact Hsub]. by apply insert_subseteq. }
  destruct (IH Hsub') as [H1 H2]. simpl in H1, H2.
  set (r := map_fold _ c m) in *.
  assert (batches_ r !! i = Some x) as Hri by (by rewrite H1, Hi).
  unfold remove_step. destruct (pred x) eqn:Ep; simpl.
  - split.
    + intros k. rewrite (lookup_delete _ i k), (lookup_insert m i k).
      case_decide; [by rewrite Ep|apply H1].
    + intros Hc. unfold counted in *. simpl.
      rewrite (count_delete _ _ _ Hri). by rewrite (H2 Hc).
  - split; [|done].
    intros k. rewrite (lookup_insert m i k).
    case_decide; [subst; by rewrite Ep|apply H1].
Qed.

Lemma remove_lookup pred c k :
  batches_ (remove pred c) !! k
  = match batches_ c !! k with
    | Some b => if pred b then None else Some b
    | None => None
    end.
Proof.
  destruct (remove_loop pred c (batches_ c) (reflexivity _)) as [H _].
  unfold remove. rewrite H. by destruct (batches_ c !! k).
Qed.

Lemma remove_ok pred c : ok c → ok (remove pred c).
Proof.
  intros [Hk Hc]. split.
  - intros k b. rewrite remove_lookup.
    destruct (batches_ c !! k) as [b'|] eqn:E; [|done].
    destruct (pred b'); [done|]. intros [= <-]. by apply Hk.
  - by apply (remove_loop pred c (batches_ c) (reflexivity _)).
Qed.

End context_facts.

(** ** oldestTimestamp and the probe loop *)

Lemma oldestTimestamp_zero batch : oldestTimestamp batch = 0%N.
Proof.
  unfold oldestTimestamp. induction (transactions batch) as [|tx txs IH]; [done|].
  simpl. by rewrite N.min_0_l.
Qed.

Section probe_facts.
Import BatchesCache.
Implicit Types (e : gmap N N) (ts : N) (n : nat).
Local Open Scope N_scope.

Lemma ts_succ_lt ts : ts_succ ts < 2 ^ 64.
Proof. unfold ts_succ. by apply N.mod_lt. Qed.

Lemma ts_succ_iter j ts :
  Nat.iter j ts_succ ts = (ts + N.of_nat j) mod 2 ^ 64 ∨ 2 ^ 64 ≤ ts.
Proof.
  destruct (decide (ts < 2 ^ 64)) as [Hts|]; [left|right; lia].
  induction j as [|j IH].
  - simpl. rewrite N.add_0_r. symmetry. by apply N.mod_small.
  - rewrite Nat.iter_succ, IH. unfold ts_succ.
    rewrite N.Div0.add_mod_idemp_l. f_equal. lia.
Qed.

(** Within fewer than 2^64 turns the loop does not come back to the
    timestamp it started from. *)
Lemma ts_succ_iter_ne j ts :
  ts < 2 ^ 64 → N.of_nat j < 2 ^ 64 - 1 →
  Nat.iter j ts_succ (ts_succ ts) ≠ ts.
Proof.
  intros Hts Hj. rewrite <- Nat.iter_succ_r.
  destruct (ts_succ_iter (S j) ts) as [->|]; [|lia].
  intros E.
  destruct (decide (ts + N.of_nat (S j) < 2 ^ 64)) as [Hlt|Hge].
  - rewrite N.mod_small in E by done. lia.
  - assert ((ts + N.of_nat (S j)) mod 2 ^ 64 = ts + N.of_nat (S j) - 2 ^ 64) as E'.
    { symmetry. apply (N.mod_unique _ _ 1); lia. }
    rewrite E' in E. lia.
Qed.

Lemma probe_free e ts n r : probe e ts n = Some r → e !! r = None.
Proof.
  revert ts. induction n as [|n IH]; intros ts; simpl; [done|].
  destruct (e !! ts) eqn:E; [apply IH|]. by intros [= <-].
Qed.

(** A key the loop never looks at may be erased. *)
Lemma probe_delete e ts0 ts n :
  (∀ j, (j < n)%nat → Nat.iter j ts_succ ts ≠ ts0) →
  probe (delete ts0 e) ts n = probe e ts n.
Proof.
  revert ts. induction n as [|n IH]; intros ts Hw; simpl; [done|].
  rewrite lookup_delete_ne by (symmetry; apply (Hw 0%nat); lia).
  destruct (e !! ts); [|done]. apply IH.
  intros j Hj. rewrite <- Nat.iter_succ_r. apply Hw. lia.
Qed.

(** The loop ends: with more turns than keys, a free timestamp is found. *)
Lemma probe_total n e ts :
  (size e < n)%nat → N.of_nat n ≤ 2 ^ 64 → ts < 2 ^ 64 →
  is_Some (probe e ts n).
Proof.
  revert e ts. induction n as [|n IH]; intros e ts Hsz Hn Hts; [lia|].
  simpl. destruct (e !! ts) as [v|] eqn:E; [|by eexists].
  rewrite <- (probe_delete e ts).
  - apply IH; [|lia|apply ts_succ_lt].
    pose proof (map_size_delete_Some ts e (ltac:(by eexists))). 
    assert (size e ≠ 0%nat)
      by (apply map_size_non_empty_iff; intros ->; by rewrite lookup_empty in E).
    lia.
  - intros j Hj. apply ts_succ_iter_ne; [done|lia].
Qed.

(** While it does not wrap around, the loop stops at the least free
    timestamp from [ts] upwards. *)
Lemma probe_least e ts n r :
  probe e ts n = Some r → N.of_nat n + ts ≤ 2 ^ 64 →
  ts ≤ r ∧ ∀ t', ts ≤ t' < r → is_Some (e !! t').
Proof.
  revert ts. induction n as [|n IH]; intros ts Hp Hb; [done|].
  simpl in Hp. destruct (e !! ts) as [v|] eqn:E.
  - destruct n as [|n]; [done|].
    assert (ts_succ ts = ts + 1) as Hs.
    { unfold ts_succ. apply N.mod_small. lia. }
    rewrite Hs in Hp. destruct (IH (ts + 1) Hp) as [Hle Hocc]; [lia|].
    split; [lia|]. intros t' Ht'.
    destruct (decide (t' = ts)) as [->|]; [by eexists|]. apply Hocc. lia.
  - injection Hp as <-. split; [lia|]. intros t' Ht'. lia.
Qed.

Lemma probe_ready e :
  N.of_nat (size e) < 2 ^ 64 →
  ∃ ts, probe e 0 (S (size e)) = Some ts ∧ e !! ts = None.
Proof.
  intros Hsz. destruct (probe_total (S (size e)) e 0) as [ts Hts]; [lia..|done|].
  exists ts. split; [done|]. by eapply probe_free.
Qed.

End probe_facts.

(** ** The invariant of the pending store is kept by every update *)

Section pending_facts.
Import BatchesCache.
Implicit Types (st : MSTState) (rh ts : N) (it : BatchInfo).

Lemma pending_inv_empty diff : pending_inv (mkMST ∅ ∅ diff).
Proof.
  repeat split; simpl.
  - intros rh info. by rewrite lookup_empty.
  - intros ts rh. by rewrite lookup_empty.
Qed.

(** Different entries have different timestamps. *)
Lemma pending_inv_unique st rh1 rh2 it1 it2 :
  pending_inv st →
  mst_pending_ st !! rh1 = Some it1 → mst_pending_ st !! rh2 = Some it2 →
  timestamp it1 = timestamp it2 → rh1 = rh2.
Proof.
  intros (_ & H2 & _) H1%H2 H1'%H2 E. rewrite E in H1. congruence.
Qed.

Lemma pending_inv_emplace st rh b ts :
  pending_inv st →
  mst_pending_ st !! rh = None → mst_expirations_ st !! ts = None →
  pending_inv (mkMST (<[rh := mkInfo b ts]> (mst_pending_ st))
                     (<[ts := rh]> (mst_expirations_ st)) (mst_diff st)).
Proof.
  intros (Hs & H2 & H3) Hrh Hts. repeat split; simpl.
  - rewrite !map_size_insert_None by done. by rewrite Hs.
  - intros rh' info. rewrite lookup_insert. case_decide as E.
    + intros [= <-]. simpl. subst. apply lookup_insert_eq.
    + intros Hi. pose proof (H2 _ _ Hi) as He.
      rewrite lookup_insert_ne; [done|]. intros ->. congruence.
  - intros ts' rh'. rewrite lookup_insert. case_decide as E.
    + intros [= <-]. subst. eexists. by rewrite lookup_insert_eq.
    + intros He. destruct (H3 _ _ He) as (info & Hi & Ht).
      exists info. split; [|done]. rewrite lookup_insert_ne; [done|].
      intros <-. congruence.
Qed.

(** The merge replaces the batch of an entry and keeps its timestamp. *)
Lemma pending_inv_update st rh it target diff :
  pending_inv st → mst_pending_ st !! rh = Some it →
  pending_inv (mkMST (<[rh := mkInfo target (timestamp it)]> (mst_pending_ st))
                     (mst_expirations_ st) diff).
Proof.
  intros (Hs & H2 & H3) Hrh. repeat split; simpl.
  - rewrite map_size_insert_Some by (by eexists). done.
  - intros rh' info. rewrite lookup_insert. case_decide as E.
    + intros [= <-]. simpl. subst. by apply H2.
    + apply H2.
  - intros ts' rh' He. destruct (H3 _ _ He) as (info & Hi & Ht).
    destruct (decide (rh = rh')) as [<-|Hne].
    + rewrite lookup_insert_eq. eexists. split; [done|]. simpl. congruence.
    + exists info. by rewrite lookup_insert_ne.
Qed.

Lemma pending_inv_erase st rh it :
  pending_inv st → mst_pending_ st !! rh = Some it →
  pending_inv (erase_entry rh it st).
Proof.
  intros Hinv Hrh. pose proof Hinv as (Hs & H2 & H3).
  pose proof (H2 _ _ Hrh) as Hts.
  repeat split; simpl.
  - pose proof (map_size_delete_Some rh (mst_pending_ st) (ltac:(by eexists))).
    pose proof (map_size_delete_Some (timestamp it) (mst_expirations_ st)
                  (ltac:(by eexists))).
    lia.
  - intros rh' info [Hne Hi]%lookup_delete_Some.
    rewrite lookup_delete_ne; [by apply H2|].
    intros E. apply Hne. symmetry. by eapply (pending_inv_unique st rh' rh).
  - intros ts' rh' [Hne He]%lookup_delete_Some.
    destruct (H3 _ _ He) as (info & Hi & Ht). exists info. split; [|done].
    rewrite lookup_delete_ne; [done|]. intros <-.
    rewrite Hrh in Hi. injection Hi as <-. done.
Qed.

(** The loop of the prune after the entries [m]. *)
Lemma prune_loop hashes st (m : gmap N BatchInfo) :
  m ⊆ mst_pending_ st →
  let r := map_fold (prune_step hashes) st m in
  (∀ rh, mst_pending_ r !! rh
         = match m !! rh with
           | Some it => if touches hashes (batch it) then None else Some it
           | None => mst_pending_ st !! rh
           end)
  ∧ (pending_inv st → pending_inv r).
Proof.
  induction m as [|i x m Hi Hfirst IH] using map_first_key_ind; intros Hsub.
  { simpl. rewrite map_fold_empty. split; [|done].
    intros k. by rewrite lookup_empty. }
  simpl. rewrite map_fold_insert_first_key by done.
  assert (m ⊆ mst_pending_ st) as Hsub'.
  { etrans; [|exact Hsub]. by apply insert_subseteq. }
  destruct (IH Hsub') as [H1 H2]. simpl in H1, H2.
  set (r := map_fold _ st m) in *.
  assert (mst_pending_ r !! i = Some x) as Hri.
  { rewrite H1, Hi. eapply lookup_weaken; [|exact Hsub]. apply lookup_insert_eq. }
  unfold prune_step. destruct (touches hashes (batch x)) eqn:Ep; simpl.
  - split.
    + intros k. rewrite (lookup_delete _ i k), (lookup_insert m i k).
      case_decide; [by rewrite Ep|apply H1].
    + intros Hinv. by apply pending_inv_erase; [apply H2|].
  - split; [|done].
    intros k. rewrite (lookup_insert m i k).
    case_decide; [subst; by rewrite Ep|apply H1].
Qed.

Lemma prune_lookup hashes st rh :
  mst_pending_ (prune hashes st) !! rh
  = match mst_pending_ st !! rh with
    | Some it => if touches hashes (batch it) then None else Some it
    | None => None
    end.
Proof.
  destruct (prune_loop hashes st (mst_pending_ st) (reflexivity _)) as [H _].
  unfold prune. rewrite H. by destruct (mst_pending_ st !! rh).
Qed.

Lemma pending_inv_prune hashes st : pending_inv st → pending_inv (prune hashes st).
Proof. apply (prune_loop hashes st (mst_pending_ st) (reflexivity _)). Qed.

(** Without hashes nothing is pruned. *)
Lemma touches_empty b : touches ∅ b = false.
Proof.
  unfold touches. induction (transactions b) as [|tx txs IH]; [done|].
  simpl. rewrite IH. rewrite bool_decide_eq_false_2 by set_solver. done.
Qed.

Lemma prune_empty st : prune ∅ st = st.
Proof.
  unfold prune.
  generalize (mst_pending_ st) as m. intros m.
  induction m as [|i x m Hi Hfirst IH] using map_first_key_ind.
  - by rewrite map_fold_empty.
  - rewrite map_fold_insert_first_key by done. rewrite IH.
    unfold prune_step. by rewrite touches_empty.
Qed.

End pending_facts.

(** ** Properties kept along a method *)

Section stable_facts.
Import BatchesCache.
Local Open Scope cache_scope.
Context (I : t → Prop).

Lemma stable_bind {A B} (m : M A) (k : A → M B) :
  stable I m → (∀ a, stable I (k a)) → stable I (bind m k).
Proof.
  intros Hm Hk w Hw. unfold bind. specialize (Hm w Hw).
  destruct (m w) as [a w'|l w'|w']; simpl in *; [by apply Hk|done..].
Qed.

Lemma stable_ret {A} (a : A) : stable I (ret a).
Proof. by intros w Hw. Qed.

Lemma stable_lock l : stable I (lock l).
Proof. intros w Hw. unfold lock. by destruct l, (held _ w). Qed.

Lemma stable_unlock l : stable I (unlock l).
Proof. intros w Hw. by destruct l. Qed.

Lemma stable_notify e p : stable I (notify e p).
Proof. by intros w Hw. Qed.

Lemma stable_spin {A} : stable I (@spin A).
Proof. by intros w Hw. Qed.

Lemma stable_put c : I c → stable I (put c).
Proof. by intros Hc w Hw. Qed.

(** Reading the cache first: the rest may use that the property holds of
    what was read. *)
Lemma stable_get {A} (k : t → M A) :
  (∀ c, I c → stable I (k c)) → stable I (bind get k).
Proof. intros Hk w Hw. unfold bind, get. by apply Hk. Qed.

Lemma stable_with_lock {A} l (body : M A) :
  stable I body → stable I (with_lock l body).
Proof.
  intros Hb. unfold with_lock.
  apply stable_bind; [apply stable_lock|]. intros _.
  apply stable_bind; [done|]. intros r.
  apply stable_bind; [apply stable_unlock|]. intros _. apply stable_ret.
Qed.

End stable_facts.

Section pending_stable.
Import BatchesCache.
Local Open Scope cache_scope.

Local Abbreviation I := pending_ok.

Lemma insertMSTCache_pending batch : stable I (insertMSTCache batch).
Proof.
  apply (stable_with_lock I), (stable_get I). intros c Hc. cbv beta zeta.
  destruct (mst_pending_ (mst_state_ c) !! reducedHash batch) as [it|] eqn:E.
  - destruct (mergeSignaturesInBatch (BatchesCache.batch it) batch [])
      as [[target inserted] diff] eqn:Em.
    assert (I (set_mst
                 (mkMST (<[reducedHash batch := mkInfo target (timestamp it)]>
                           (mst_pending_ (mst_state_ c)))
                        (mst_expirations_ (mst_state_ c)) diff) c)) as Hmerged
      by (by apply pending_inv_update).
    apply (stable_bind I); [by apply stable_put|]. intros _.
    destruct inserted; [|apply stable_ret].
    destruct (hasAllSignatures target); [|apply stable_notify].
    apply (stable_bind I).
    { apply (stable_with_lock I), (stable_get I). intros c' Hc'. by apply stable_put. }
    intros _. apply (stable_get I). intros c' Hc'.
    apply (stable_bind I); [|intros _; apply stable_notify].
    apply stable_put.
    apply (pending_inv_erase (mkMST _ _ _) _ (mkInfo target (timestamp it)));
      [exact Hmerged|apply lookup_insert_eq].
  - destruct (probe _ _ _) as [ts|] eqn:Ep; [|apply stable_spin].
    apply (stable_bind I); [|intros _; apply stable_notify].
    apply stable_put. apply pending_inv_emplace; [done..|].
    by eapply probe_free.
Qed.

Lemma removeMSTCache_pending batch : stable I (removeMSTCache batch).
Proof.
  apply (stable_with_lock I), (stable_get I). intros c Hc. cbv beta zeta.
  destruct (mst_pending_ (mst_state_ c) !! reducedHash batch) as [it|] eqn:E;
    [|apply stable_ret].
  apply stable_put. by apply pending_inv_erase.
Qed.

Lemma removeMSTCache_hashes_pending hashes :
  stable I (removeMSTCache_hashes hashes).
Proof.
  apply (stable_with_lock I), (stable_get I). intros c Hc.
  apply stable_put. by apply pending_inv_prune.
Qed.

Lemma insert_pending batch : stable I (insert batch).
Proof.
  apply (stable_with_lock I), (stable_bind I).
  - destruct (hasAllSignatures batch); [|apply insertMSTCache_pending].
    apply (stable_get I). intros c Hc.
    apply (stable_bind I).
    { destruct (_ !! _); [apply stable_ret|]. by apply stable_put. }
    intros _. apply (stable_bind I); [apply removeMSTCache_pending|].
    intros _. apply stable_notify.
  - intros _. apply (stable_get I). intros c Hc. apply stable_ret.
Qed.

Lemma remove_pending hashes : stable I (remove hashes).
Proof.
  apply (stable_bind I); [apply removeMSTCache_hashes_pending|]. intros _.
  apply (stable_with_lock I), (stable_get I). intros c Hc.
  destruct (BatchesContext.merge _ _) as [available used].
  by apply stable_put.
Qed.

Lemma claim_step_mst c batch : mst_state_ (claim_step c batch) = mst_state_ c.
Proof. done. Qed.

Lemma claim_mst batches c : mst_state_ (foldl claim_step c batches) = mst_state_ c.
Proof.
  revert c. induction batches as [|b bs IH]; intros c; [done|].
  simpl. by rewrite IH.
Qed.

Lemma processReceivedProposal_pending batches :
  stable I (processReceivedProposal batches).
Proof.
  apply (stable_with_lock I), (stable_get I). intros c Hc.
  apply stable_put. unfold I. by rewrite claim_mst.
Qed.

Lemma exec_pending k c :
  pending_inv (mst_state_ c) → pending_inv (mst_state_ (data (exec k (idle c)))).
Proof.
  intros Hc. destruct k as [b|h|bs|b|b|h]; cbn [exec].
  - by apply (insert_pending b).
  - by apply (remove_pending h).
  - by apply (processReceivedProposal_pending bs).
  - by apply (insertMSTCache_pending b).
  - by apply (removeMSTCache_pending b).
  - by apply (removeMSTCache_hashes_pending h).
Qed.

Lemma reachable_pending c : reachable c → pending_inv (mst_state_ c).
Proof.
  induction 1 as [|c k _ IH]; [apply pending_inv_empty|by apply exec_pending].
Qed.

End pending_stable.

(** Unfolds a method down to the primitives of the monad. *)
Ltac run :=
  cbv [BatchesCache.insert BatchesCache.insertMSTCache
       BatchesCache.removeMSTCache BatchesCache.removeMSTCache_hashes
       BatchesCache.remove BatchesCache.processReceivedProposal
       BatchesCache.isEmpty BatchesCache.txsCount
       BatchesCache.forCachedBatches
       BatchesCache.availableTxsCount
       BatchesCache.with_lock BatchesCache.bind BatchesCache.lock
       BatchesCache.unlock BatchesCache.get BatchesCache.put
       BatchesCache.notify BatchesCache.ret BatchesCache.spin
       BatchesCache.idle BatchesCache.record BatchesCache.set_held
       BatchesCache.held BatchesCache.data BatchesCache.pending_held
       BatchesCache.cache_held BatchesCache.log app].

(** ** Running the methods from a thread that owns no lock *)

Section run_facts.
Import BatchesCache.
Local Open Scope cache_scope.

Lemma run_insert_complete batch c :
  hasAllSignatures batch = true →
  insert batch (idle c)
  = Returned
      (BatchesContext.tx_count_ (batches_cache_ (insert_complete batch c)))
      (mkWorld (insert_complete batch c) false false
         [Acquire L_cache; Acquire L_pending; Release L_pending;
          Notify kOnMstPreparedBatches None; Release L_cache]).
Proof.
  intros Hall. run. rewrite Hall. unfold insert_complete.
  destruct (BatchesContext.batches_ (used_batches_cache_ c) !! batch_id batch);
    run; cbn [mst_state_ set_batches];
    destruct (mst_pending_ (mst_state_ c) !! reducedHash batch); run;
    by destruct c.
Qed.

Lemma run_remove hashes c :
  remove hashes (idle c)
  = Returned ()
      (mkWorld (removed hashes c) false false
         [Acquire L_pending; Release L_pending;
          Acquire L_cache; Release L_cache]).
Proof.
  run. unfold removed. cbn.
  by destruct (BatchesContext.merge (batches_cache_ c) (used_batches_cache_ c)).
Qed.

Lemma run_processReceivedProposal batches c :
  processReceivedProposal batches (idle c)
  = Returned ()
      (mkWorld (claimed batches c) false false
         [Acquire L_cache; Release L_cache]).
Proof. done. Qed.

Lemma run_txsCount c :
  txsCount (idle c)
  = Returned
      (u64 (BatchesContext.tx_count_ (batches_cache_ c)
            + BatchesContext.tx_count_ (used_batches_cache_ c)))
      (mkWorld c false false [Acquire L_cache; Release L_cache]).
Proof. done. Qed.

(** A batch whose reduced hash is not pending yet. *)
Lemma run_insertMSTCache_new batch c ts :
  mst_pending_ (mst_state_ c) !! reducedHash batch = None →
  probe (mst_expirations_ (mst_state_ c)) (oldestTimestamp batch)
        (S (size (mst_expirations_ (mst_state_ c)))) = Some ts →
  insertMSTCache batch (idle c)
  = Returned ()
      (mkWorld
         (set_mst
            (mkMST (<[reducedHash batch := mkInfo batch ts]>
                      (mst_pending_ (mst_state_ c)))
                   (<[ts := reducedHash batch]>
                      (mst_expirations_ (mst_state_ c)))
                   (mst_diff (mst_state_ c))) c)
         false false
         [Acquire L_pending; Notify kOnMstStateUpdate (Some batch);
          Release L_pending]).
Proof. intros Hrh Hp. run. rewrite Hrh, Hp. done. Qed.

Lemma run_insertMSTCache_same batch c it target diff :
  mst_pending_ (mst_state_ c) !! reducedHash batch = Some it →
  mergeSignaturesInBatch (BatchesCache.batch it) batch [] = (target, false, diff) →
  insertMSTCache batch (idle c)
  = Returned ()
      (mkWorld (set_mst (merged_state c (reducedHash batch) it target diff) c)
         false false [Acquire L_pending; Release L_pending]).
Proof. intros Hrh Hm. run. rewrite Hrh, Hm. done. Qed.

Lemma run_insertMSTCache_updated batch c it target diff :
  mst_pending_ (mst_state_ c) !! reducedHash batch = Some it →
  mergeSignaturesInBatch (BatchesCache.batch it) batch [] = (target, true, diff) →
  hasAllSignatures target = false →
  insertMSTCache batch (idle c)
  = Returned ()
      (mkWorld (set_mst (merged_state c (reducedHash batch) it target diff) c)
         false false
         [Acquire L_pending; Notify kOnMstStateUpdate (Some target);
          Release L_pending]).
Proof. intros Hrh Hm Hall. run. rewrite Hrh, Hm. run. rewrite Hall. done. Qed.

Lemma run_insertMSTCache_completed batch c it target diff :
  mst_pending_ (mst_state_ c) !! reducedHash batch = Some it →
  mergeSignaturesInBatch (BatchesCache.batch it) batch [] = (target, true, diff) →
  hasAllSignatures target = true →
  insertMSTCache batch (idle c)
  = Returned ()
      (mkWorld
         (mk (erase_entry (reducedHash batch) (mkInfo target (timestamp it))
                (merged_state c (reducedHash batch) it target diff))
             (BatchesContext.insert target (batches_cache_ c)).2
             (used_batches_cache_ c))
         false false
         [Acquire L_pending; Acquire L_cache; Release L_cache;
          Notify kOnMstPreparedBatches (Some target); Release L_pending]).
Proof. intros Hrh Hm Hall. run. rewrite Hrh, Hm. run. rewrite Hall. done. Qed.

(** Whatever the batch and the cache, [insert] takes [L_cache] and then,
    still owning it, [L_pending]. *)
Lemma insert_log_starts batch c :
  ∃ rest, log (world_of (insert batch (idle c)))
          = Acquire L_cache :: Acquire L_pending :: rest.
Proof.
  run. destruct (hasAllSignatures batch).
  - destruct (BatchesContext.batches_ (used_batches_cache_ c) !! batch_id batch);
      run; cbn [mst_state_ set_batches];
      destruct (mst_pending_ (mst_state_ c) !! reducedHash batch); run;
      by eexists.
  - destruct (mst_pending_ (mst_state_ c) !! reducedHash batch) as [it|].
    + destruct (mergeSignaturesInBatch _ _ _) as [[target inserted] diff].
      run. destruct inserted; [|by eexists].
      destruct (hasAllSignatures target); by eexists.
    + destruct (probe _ _ _); by eexists.
Qed.

End run_facts.

(** ** Merging signatures *)

Section merge_facts.
Implicit Types (t d r : Transaction) (sigs : list Signature).

Lemma addSignature_sigs t sd pk s :
  s ∈ signatures (addSignature t sd pk).1
  ↔ s ∈ signatures t ∨ s = mkSignature sd pk.
Proof.
  unfold addSignature. case_decide as Hin; simpl.
  - split; [by left|]. intros [?| ->]; done.
  - rewrite elem_of_app, list_elem_of_singleton. done.
Qed.

(** [addSignature] says whether the signature was new. *)
Lemma addSignature_new t sd pk :
  (addSignature t sd pk).2 = true ↔ mkSignature sd pk ∉ signatures t.
Proof. unfold addSignature. case_decide; simpl; naive_solver. Qed.

Lemma signature_eta (s : Signature) : mkSignature (signedData s) (publicKey s) = s.
Proof. by destruct s. Qed.

Lemma merge_tx_sigs idx t sigs inserted diff s :
  s ∈ signatures (merge_tx idx t sigs inserted diff).1.1
  ↔ s ∈ signatures t ∨ s ∈ sigs.
Proof.
  revert t inserted diff. induction sigs as [|x sigs IH]; intros t inserted diff.
  { simpl. rewrite elem_of_nil. tauto. }
  simpl.
  pose proof (addSignature_sigs t (signedData x) (publicKey x) s) as Ha.
  rewrite signature_eta in Ha.
  destruct (addSignature t (signedData x) (publicKey x)) as [t' new].
  simpl in Ha. destruct new; rewrite IH, Ha, elem_of_cons; tauto.
Qed.

Lemma merge_txs_union idx (targets donors : list Transaction) inserted diff :
  length targets = length donors →
  Forall3 tx_union (merge_txs idx targets donors inserted diff).1.1
          targets donors.
Proof.
  revert idx donors inserted diff.
  induction targets as [|t targets IH]; intros idx [|d donors] inserted diff Hlen;
    try done; [constructor|].
  simpl.
  pose proof (λ s, merge_tx_sigs idx t (signatures d) inserted diff s) as Ht.
  destruct (merge_tx idx t (signatures d) inserted diff) as [[t' ins'] diff'].
  specialize (IH (S idx) donors ins' diff' (ltac:(simpl in Hlen; lia))).
  destruct (merge_txs (S idx) targets donors ins' diff') as [[rest ins''] diff''].
  simpl in *. by constructor.
Qed.

Lemma mergeSignaturesInBatch_union target donor diff :
  length (transactions target) = length (transactions donor) →
  sigs_union (mergeSignaturesInBatch target donor diff).1.1 target donor.
Proof.
  intros Hlen. unfold mergeSignaturesInBatch.
  pose proof (merge_txs_union 0 (transactions target) (transactions donor)
                false diff Hlen) as H.
  destruct (merge_txs _ _ _ _ _) as [[txs ins] diff']. by split.
Qed.

Lemma tx_union_comm r t d : tx_union r t d → tx_union r d t.
Proof. unfold tx_union. intros H s. rewrite H. tauto. Qed.

Lemma Forall3_tx_union_comm (rs ts ds : list Transaction) :
  Forall3 tx_union rs ts ds → Forall3 tx_union rs ds ts.
Proof. induction 1; constructor; auto using tx_union_comm. Qed.

Lemma sigs_union_comm R P1 P2 :
  reducedHash P1 = reducedHash P2 → sigs_union R P1 P2 → sigs_union R P2 P1.
Proof.
  intros Hrh [H1 H2]. split; [congruence|by apply Forall3_tx_union_comm].
Qed.

End merge_facts.

(** ** Two inserts of the same logical batch *)

Section aggregation.
Import BatchesCache.

Lemma insertMSTCache_pair c P1 P2 :
  reducedHash P1 = reducedHash P2 →
  length (transactions P1) = length (transactions P2) →
  resident c (reducedHash P1) = None →
  (N.of_nat (size (mst_expirations_ (mst_state_ c))) < 2 ^ 64)%N →
  ∃ w1 w2 R,
    insertMSTCache P1 (idle c) = Returned () w1
    ∧ insertMSTCache P2 (idle (data w1)) = Returned () w2
    ∧ resident (data w2) (reducedHash P1) = Some R
    ∧ sigs_union R P1 P2.
Proof.
  intros Hrh Hlen Hres Hsz.
  assert (mst_pending_ (mst_state_ c) !! reducedHash P1 = None
          ∧ BatchesContext.batches_ (batches_cache_ c) !! reducedHash P1 = None)
    as [Hp Ha].
  { unfold resident in Hres. by destruct (mst_pending_ _ !! _). }
  destruct (probe_ready _ Hsz) as (ts & Hts & _).
  rewrite <- (oldestTimestamp_zero P1) in Hts.
  pose proof (run_insertMSTCache_new P1 c ts Hp Hts) as Hrun1.
  set (c1 := set_mst _ c) in Hrun1.
  assert (mst_pending_ (mst_state_ c1) !! reducedHash P2 = Some (mkInfo P1 ts))
    as Hp1 by (rewrite <- Hrh; apply lookup_insert_eq).
  pose proof (mergeSignaturesInBatch_union P1 P2 [] Hlen) as Hu.
  destruct (mergeSignaturesInBatch P1 P2 []) as [[target inserted] diff] eqn:Em.
  simpl in Hu.
  assert (batch_id target = reducedHash P1) as Hid by apply Hu.
  destruct inserted; [destruct (hasAllSignatures target) eqn:Hall|].
  - (* the merge completes the batch: it moves to the available set *)
    pose proof (run_insertMSTCache_completed P2 c1 _ _ _ Hp1 Em Hall) as Hrun2.
    eexists _, _, target. split; [exact Hrun1|]. split; [exact Hrun2|].
    split; [|exact Hu].
    unfold resident. cbn. rewrite <- Hrh, lookup_delete_eq.
    rewrite insert_absent by (by rewrite Hid).
    cbn. by rewrite Hid, lookup_insert_eq.
  - pose proof (run_insertMSTCache_updated P2 c1 _ _ _ Hp1 Em Hall) as Hrun2.
    eexists _, _, target. split; [exact Hrun1|]. split; [exact Hrun2|].
    split; [|exact Hu].
    unfold resident. cbn. by rewrite <- Hrh, lookup_insert_eq.
  - pose proof (run_insertMSTCache_same P2 c1 _ _ _ Hp1 Em) as Hrun2.
    eexists _, _, target. split; [exact Hrun1|]. split; [exact Hrun2|].
    split; [|exact Hu].
    unfold resident. cbn. by rewrite <- Hrh, lookup_insert_eq.
Qed.

End aggregation.

(** ** Claiming batches for a proposal *)

Section claim_facts.
Import BatchesCache.

Lemma claimed_snoc batches b c :
  claimed (batches ++ [b]) c = claim_step (claimed batches c) b.
Proof. unfold claimed. by rewrite foldl_app. Qed.

Lemma claim_step_again c b :
  BatchesContext.batches_ (batches_cache_ c) !! batch_id b = None →
  is_Some (BatchesContext.batches_ (used_batches_cache_ c) !! batch_id b) →
  claim_step c b = c.
Proof.
  intros Ha Hu. unfold claim_step.
  rewrite removeBatch_absent, insert_present by done. by destruct c.
Qed.

Lemma claimed_spec batches c :
  BatchesContext.batches_ (batches_cache_ c)
    ##ₘ BatchesContext.batches_ (used_batches_cache_ c) →
  (∀ b, b ∈ batches →
        BatchesContext.batches_ (batches_cache_ c) !! batch_id b = Some b) →
  claim_inv batches c (claimed batches c).
Proof.
  intros Hdisj.
  induction batches as [|b batches IH] using rev_ind; intros Hmem.
  { unfold claim_inv. cbn. split_and!; done. }
  rewrite claimed_snoc.
  destruct IH as (Hm & Ha & Hu & Ht & Hoa & Hou).
  { intros b' Hb'. apply Hmem, elem_of_app. by left. }
  assert (BatchesContext.batches_ (batches_cache_ c) !! batch_id b = Some b)
    as Hb by (apply Hmem, elem_of_app; right; by apply list_elem_of_singleton).
  set (c' := claimed batches c) in *.
  assert (∀ k, k ∈ batch_id <$> batches ++ [b]
               ↔ k ∈ batch_id <$> batches ∨ k = batch_id b) as Hids.
  { intros k. rewrite fmap_app, elem_of_app. cbn.
    by rewrite list_elem_of_singleton. }
  destruct (decide (batch_id b ∈ batch_id <$> batches)) as [Hin|Hnin].
  - (* claimed before: nothing changes *)
    rewrite claim_step_again.
    + assert (∀ k, k ∈ batch_id <$> batches ++ [b] ↔ k ∈ batch_id <$> batches)
        as Hsame.
      { intros k. rewrite Hids. split; [by intros [?| ->]|by left]. }
      unfold claim_inv. split_and!; try done.
      * intros k. rewrite Ha. symmetry. apply decide_ext, Hsame.
      * intros k. rewrite Hu. symmetry. apply decide_ext, Hsame.
    + rewrite Ha. by rewrite decide_True.
    + rewrite Hu, decide_True by done. by eexists.
  - (* moved from the available set to the used set *)
    assert (BatchesContext.batches_ (batches_cache_ c') !! batch_id b = Some b)
      as Ha' by (rewrite Ha; by rewrite decide_False).
    assert (BatchesContext.batches_ (used_batches_cache_ c') !! batch_id b = None)
      as Hu'.
    { rewrite Hu, decide_False by done. by eapply map_disjoint_Some_l. }
    unfold claim_inv, claim_step.
    rewrite (removeBatch_present _ _ _ Ha'), (insert_absent _ _ Hu'). cbn.
    split; [done|]. split; [|split; [|split; [|split]]].
    + intros k. rewrite (lookup_delete _ (batch_id b) k), Ha.
      destruct (decide (batch_id b = k)) as [<-|Hne].
      * rewrite decide_True; [done|]. apply Hids. by right.
      * apply decide_ext. rewrite Hids. split; [by left|]. by intros [?|?].
    + intros k. rewrite (lookup_insert _ (batch_id b) k), Hu.
      destruct (decide (batch_id b = k)) as [<-|Hne].
      * rewrite decide_True; [done|]. apply Hids. by right.
      * apply decide_ext. rewrite Hids. split; [by left|]. by intros [?|?].
    + rewrite <- Ht. unfold u64.
      rewrite <- Zplus_mod. f_equal. lia.
    + intros Hok. specialize (Hoa Hok).
      pose proof (removeBatch_ok b _ Hoa) as Hr.
      rewrite (removeBatch_present _ _ _ Ha') in Hr. apply Hr.
      intros b'. rewrite Ha'. by intros [= <-].
    + intros Hok. specialize (Hou Hok).
      pose proof (insert_ok b _ Hou) as Hr.
      by rewrite (insert_absent _ _ Hu') in Hr.
Qed.

(** The count of the available set after a claim of its members, whatever
    it was before: it has dropped by the sizes of the batches that the used
    set gained. *)
Lemma claimed_count batches c :
  BatchesContext.batches_ (batches_cache_ c)
    ##ₘ BatchesContext.batches_ (used_batches_cache_ c) →
  (∀ b, b ∈ batches →
        BatchesContext.batches_ (batches_cache_ c) !! batch_id b = Some b) →
  u64 (BatchesContext.tx_count_ (batches_cache_ (claimed batches c))
       + BatchesContext.total_txs
           (BatchesContext.batches_ (used_batches_cache_ (claimed batches c))))
  = u64 (BatchesContext.tx_count_ (batches_cache_ c)
         + BatchesContext.total_txs
             (BatchesContext.batches_ (used_batches_cache_ c)))
  ∧ (0 ≤ BatchesContext.tx_count_ (batches_cache_ c) < 2 ^ 64 →
     0 ≤ BatchesContext.tx_count_ (batches_cache_ (claimed batches c)) < 2 ^ 64).
Proof.
  intros Hdisj.
  induction batches as [|b batches IH] using rev_ind; intros Hmem.
  { by split. }
  assert (∀ b', b' ∈ batches →
            BatchesContext.batches_ (batches_cache_ c) !! batch_id b' = Some b')
    as Hmem'.
  { intros b' Hb'. apply Hmem, elem_of_app. by left. }
  destruct (IH Hmem') as [Hc Hr].
  destruct (claimed_spec batches c Hdisj Hmem') as (_ & Ha & Hu & _).
  assert (BatchesContext.batches_ (batches_cache_ c) !! batch_id b = Some b)
    as Hb by (apply Hmem, elem_of_app; right; by apply list_elem_of_singleton).
  rewrite claimed_snoc. set (c' := claimed batches c) in *.
  destruct (decide (batch_id b ∈ batch_id <$> batches)) as [Hin|Hnin].
  - rewrite claim_step_again; [by split| |].
    + rewrite Ha. by rewrite decide_True.
    + rewrite Hu, decide_True by done. by eexists.
  - assert (BatchesContext.batches_ (batches_cache_ c') !! batch_id b = Some b)
      as Ha' by (rewrite Ha; by rewrite decide_False).
    assert (BatchesContext.batches_ (used_batches_cache_ c') !! batch_id b = None)
      as Hu'.
    { rewrite Hu, decide_False by done. by eapply map_disjoint_Some_l. }
    unfold claim_step.
    rewrite (removeBatch_present _ _ _ Ha'), (insert_absent _ _ Hu'). cbn.
    split; [|intros _; apply u64_range].
    rewrite total_txs_insert by done. rewrite <- Hc, u64_add_l.
    f_equal. lia.
Qed.

(** A batch that occurs earlier in the proposal is claimed already,
    whatever the cache was. *)
Lemma claimed_holds batches b c :
  b ∈ batches →
  BatchesContext.batches_ (batches_cache_ (claimed batches c)) !! batch_id b = None
  ∧ is_Some (BatchesContext.batches_ (used_batches_cache_ (claimed batches c))
               !! batch_id b).
Proof.
  induction batches as [|x batches IH] using rev_ind; [by intros ?%elem_of_nil|].
  intros Hin. rewrite claimed_snoc. set (c' := claimed batches c) in *.
  unfold claim_step. cbn [batches_cache_ used_batches_cache_].
  rewrite removeBatch_batches.
  destruct (decide (batch_id b = batch_id x)) as [Heq|Hne].
  - rewrite Heq. split; [apply lookup_delete_eq|apply insert_holds].
  - apply elem_of_app in Hin as [Hin|Hin%list_elem_of_singleton];
      [|by subst].
    destruct (IH Hin) as [H1 H2]. split.
    + apply lookup_delete_None. by right.
    + by apply insert_keeps.
Qed.

Lemma claimed_duplicate b1 b2 b c :
  b ∈ b1 → claimed (b1 ++ b :: b2) c = claimed (b1 ++ b2) c.
Proof.
  intros Hin. unfold claimed. rewrite !foldl_app. cbn. f_equal.
  destruct (claimed_holds b1 b c Hin) as [Ha Hu].
  by apply claim_step_again.
Qed.

End claim_facts.

(** ** Resolving a proposal *)

Section remove_facts.
Import BatchesCache.

Lemma touches_false hashes b :
  touches hashes b = false ↔ ∀ tx, tx ∈ transactions b → hash tx ∉ hashes.
Proof.
  unfold touches. induction (transactions b) as [|x txs IH]; simpl.
  - split; [by intros _ tx ?%elem_of_nil|done].
  - rewrite orb_false_iff, IH, bool_decide_eq_false. split.
    + intros [Hx Hr] tx [->|Hin]%elem_of_cons; auto.
    + intros H. split; [apply H; by left|].
      intros tx Hin. apply H. by right.
Qed.

Lemma removed_pending hashes c rh it :
  mst_pending_ (mst_state_ (removed hashes c)) !! rh = Some it →
  touches hashes (batch it) = false.
Proof.
  unfold removed. cbn. rewrite prune_lookup.
  destruct (mst_pending_ (mst_state_ c) !! rh) as [it'|]; [|done].
  destruct (touches hashes (batch it')) eqn:E; [done|]. by intros [= <-].
Qed.

Lemma removed_available hashes c k b :
  BatchesContext.batches_ (batches_cache_ (removed hashes c)) !! k = Some b →
  touches hashes b = false.
Proof.
  unfold removed. cbn. rewrite remove_lookup.
  destruct (BatchesContext.batches_ _ !! k) as [b'|]; [|done].
  destruct (touches hashes b') eqn:E; [done|]. by intros [= <-].
Qed.

Lemma removed_used hashes c :
  BatchesContext.keyed (BatchesContext.batches_ (used_batches_cache_ c)) →
  BatchesContext.batches_ (batches_cache_ c)
    ##ₘ BatchesContext.batches_ (used_batches_cache_ c) →
  BatchesContext.batches_ (used_batches_cache_ (removed hashes c)) = ∅.
Proof.
  intros Hk Hd. unfold removed. cbn. apply map_eq. intros k.
  rewrite merge_rest, lookup_empty by done.
  destruct (BatchesContext.batches_ (batches_cache_ c) !! k) eqn:E; [|done].
  by eapply map_disjoint_Some_l.
Qed.

Lemma removed_used_count hashes c :
  BatchesContext.ok (used_batches_cache_ c) →
  BatchesContext.batches_ (batches_cache_ c)
    ##ₘ BatchesContext.batches_ (used_batches_cache_ c) →
  BatchesContext.tx_count_ (used_batches_cache_ (removed hashes c)) = 0.
Proof.
  intros [Hk Hc] Hd.
  destruct (merge_spec (batches_cache_ c) (used_batches_cache_ c) Hk)
    as (_ & _ & _ & H4).
  pose proof (removed_used hashes c Hk Hd) as He.
  unfold removed in *. cbn in *. rewrite (H4 Hc), He. apply count_empty.
Qed.

End remove_facts.

(** ** The timestamp of a new pending entry *)

Section timestamp_facts.
Import BatchesCache.

(** A batch that is not pending yet is filed under the least timestamp that
    is free, counted from 0. *)
Lemma insertMSTCache_least_free batch c :
  mst_pending_ (mst_state_ c) !! reducedHash batch = None →
  (N.of_nat (size (mst_expirations_ (mst_state_ c))) < 2 ^ 64)%N →
  ∃ ts w,
    insertMSTCache batch (idle c) = Returned () w
    ∧ mst_pending_ (mst_state_ (data w)) !! reducedHash batch
      = Some (mkInfo batch ts)
    ∧ mst_expirations_ (mst_state_ c) !! ts = None
    ∧ ∀ t', (t' < ts)%N → is_Some (mst_expirations_ (mst_state_ c) !! t').
Proof.
  intros Hp Hsz. destruct (probe_ready _ Hsz) as (ts & Hts & Hfree).
  destruct (probe_least _ _ _ _ Hts) as [_ Hocc]; [lia|].
  rewrite <- (oldestTimestamp_zero batch) in Hts.
  exists ts. eexists. split; [by apply run_insertMSTCache_new|].
  cbn. split; [apply lookup_insert_eq|]. split; [done|].
  intros t' Ht'. apply Hocc. lia.
Qed.

End timestamp_facts.

(** ** The available and the used set along insert, remove and
       processReceivedProposal *)

Section sets_facts.
Import BatchesCache.

Lemma sets_inv_empty : sets_inv empty.
Proof.
  split_and!; try (intros k b Hb; cbn in Hb; by rewrite lookup_empty in Hb).
  apply map_disjoint_empty_r.
Qed.

(** A batch that lacks signatures enters no set and leaves none:
    [insertMSTCache] is entered with [L_cache] owned, and a merge that
    completes the batch stops at the lock, before the available set. *)
Lemma insert_partial_sets b c :
  hasAllSignatures b = false →
  batches_cache_ (data (world_of (insert b (idle c)))) = batches_cache_ c
  ∧ used_batches_cache_ (data (world_of (insert b (idle c))))
    = used_batches_cache_ c.
Proof.
  intros Hb. run. rewrite Hb.
  destruct (mst_pending_ (mst_state_ c) !! reducedHash b) as [it|].
  - destruct (mergeSignaturesInBatch _ _ _) as [[target inserted] diff].
    run. destruct inserted; [|done].
    by destruct (hasAllSignatures target).
  - by destruct (probe _ _ _).
Qed.

Lemma insert_complete_sets b c : sets_inv c → sets_inv (insert_complete b c).
Proof.
  intros (Ha & Hu & Hd). unfold sets_inv, insert_complete. cbn.
  destruct (BatchesContext.batches_ (used_batches_cache_ c) !! batch_id b) eqn:E;
    [done|].
  split_and!; [by apply insert_keyed|done|].
  unfold BatchesContext.insert.
  destruct (BatchesContext.batches_ (batches_cache_ c) !! batch_id b); [done|].
  cbn. by apply map_disjoint_insert_l_2.
Qed.

Lemma removed_sets hashes c : sets_inv c → sets_inv (removed hashes c).
Proof.
  intros (Ha & Hu & Hd). unfold sets_inv.
  rewrite (removed_used hashes c Hu Hd). split_and!.
  - intros k b Hb. pose proof (removed_available hashes c k b Hb) as Hnot.
    unfold removed in Hb. cbn in Hb.
    rewrite remove_lookup, merge_available in Hb by done.
    destruct (BatchesContext.batches_ (batches_cache_ c) !! k) as [x|] eqn:Ea.
    + destruct (touches hashes x); [done|]. injection Hb as <-. by apply Ha.
    + destruct (BatchesContext.batches_ (used_batches_cache_ c) !! k) as [x|] eqn:Eu;
        [|done].
      destruct (touches hashes x); [done|]. injection Hb as <-. by apply Hu.
  - intros k b Hb. by rewrite lookup_empty in Hb.
  - apply map_disjoint_empty_r.
Qed.

Lemma claim_step_sets c b : sets_inv c → sets_inv (claim_step c b).
Proof.
  intros (Ha & Hu & Hd). unfold sets_inv, claim_step. cbn.
  split_and!; [by apply removeBatch_keyed|by apply insert_keyed|].
  rewrite removeBatch_batches. unfold BatchesContext.insert.
  destruct (BatchesContext.batches_ (used_batches_cache_ c) !! batch_id b).
  - by apply map_disjoint_delete_l.
  - cbn. apply map_disjoint_insert_r_2; [apply lookup_delete_eq|].
    by apply map_disjoint_delete_l.
Qed.

Lemma claimed_sets batches c : sets_inv c → sets_inv (claimed batches c).
Proof.
  revert c. induction batches as [|b batches IH]; intros c Hc; [done|].
  apply IH. by apply claim_step_sets.
Qed.

(** The hypotheses of C3 and C10 on the two sets hold in every state that
    [insert], [remove] and [processReceivedProposal] produce. *)
Lemma api_reachable_sets c : api_reachable c → sets_inv c.
Proof.
  induction 1 as [|c b _ IH|c hashes _ IH|c batches _ IH]; cbn [exec].
  - apply sets_inv_empty.
  - destruct (hasAllSignatures b) eqn:Hb.
    + rewrite run_insert_complete by done. by apply insert_complete_sets.
    + destruct (insert_partial_sets b c Hb) as [H1 H2].
      unfold sets_inv. by rewrite H1, H2.
  - rewrite run_remove. by apply removed_sets.
  - rewrite run_processReceivedProposal. by apply claimed_sets.
Qed.

End sets_facts.

(** * The claims *)

Section claims.
Import BatchesCache.

(** C1 (the code departs from the claim).  The claim wants the probe to start
    at the smallest creation time of the batch.  [oldestTimestamp] starts its
    minimum at 0, so it returns 0 for every batch: [partial_alice], whose
    only transaction was created at time 10, is filed under timestamp 0 in
    an empty pending store. *)
Theorem C1_oldest_timestamp_ignores_created_time :
  (∀ batch, oldestTimestamp batch = 0%N)
  ∧ createdTime <$> transactions partial_alice = [10%N]
  ∧ ∃ w, insertMSTCache partial_alice (idle empty) = Returned () w
         ∧ mst_pending_ (mst_state_ (data w)) !! 100%N
           = Some (mkInfo partial_alice 0)
         ∧ mst_expirations_ (mst_state_ (data w)) !! 0%N = Some 100%N
         ∧ mst_expirations_ (mst_state_ (data w)) !! 10%N = None.
Proof.
  split; [apply oldestTimestamp_zero|]. split; [done|].
  eexists. split; [by vm_compute|]. by vm_compute.
Qed.



(** C3.  In a cache whose available and used sets share no batch, [remove]
    returns; afterwards no pending batch and no available batch has a
    transaction whose hash is in [hashes], and the used set is empty. *)
Theorem C3_remove_prunes_every_store (hashes : gset N) (c : t) :
  BatchesContext.keyed (BatchesContext.batches_ (used_batches_cache_ c)) →
  BatchesContext.batches_ (batches_cache_ c)
    ##ₘ BatchesContext.batches_ (used_batches_cache_ c) →
  ∃ w, remove hashes (idle c) = Returned () w
       ∧ (∀ rh it tx,
            mst_pending_ (mst_state_ (data w)) !! rh = Some it →
            tx ∈ transactions (batch it) → hash tx ∉ hashes)
       ∧ (∀ k b tx,
            BatchesContext.batches_ (batches_cache_ (data w)) !! k = Some b →
            tx ∈ transactions b → hash tx ∉ hashes)
       ∧ BatchesContext.batches_ (used_batches_cache_ (data w)) = ∅.
Proof.
  intros Hk Hd. eexists. split; [apply run_remove|]. cbn [data]. split_and!.
  - intros rh it tx Hit. by apply touches_false, (removed_pending hashes c rh).
  - intros k b tx Hb. by apply touches_false, (removed_available hashes c k).
  - by apply removed_used.
Qed.

Lemma one_available_ok : BatchesContext.ok (batches_cache_ one_available).
Proof.
  split.
  - intros k b Hb. cbn in Hb. by apply lookup_singleton_Some in Hb as [<- <-].
  - by vm_compute.
Qed.

Lemma empty_context_ok : BatchesContext.ok BatchesContext.empty.
Proof.
  split; [|by vm_compute].
  intros k b Hb. cbn in Hb. by rewrite lookup_empty in Hb.
Qed.

Lemma C3_witness :
  ∃ w, remove {[ 7%N ]} (idle one_available) = Returned () w
       ∧ (∀ rh it tx,
            mst_pending_ (mst_state_ (data w)) !! rh = Some it →
            tx ∈ transactions (batch it) → hash tx ∉ ({[ 7%N ]} : gset N))
       ∧ (∀ k b tx,
            BatchesContext.batches_ (batches_cache_ (data w)) !! k = Some b →
            tx ∈ transactions b → hash tx ∉ ({[ 7%N ]} : gset N))
       ∧ BatchesContext.batches_ (used_batches_cache_ (data w)) = ∅.
Proof.
  apply (C3_remove_prunes_every_store {[ 7%N ]} one_available).
  - apply empty_context_ok.
  - apply map_disjoint_empty_r.
Defined.

(** C4.  [insert], [removeBatch], [merge] and [remove] keep the cached count
    equal to what the audit [count] computes, which is the sum of the sizes
    of the member batches modulo 2^64; this is so for the context that is
    changed and, in [merge], for the one that is drained.  The batch given
    to [removeBatch] has as many transactions as the member it identifies. *)
Theorem C4_txs_count_is_the_sum (c from : BatchesContext.t) (b : TransactionBatch)
    (pred : TransactionBatch → bool) :
  BatchesContext.ok c → BatchesContext.ok from →
  (∀ b', BatchesContext.batches_ c !! batch_id b = Some b' →
         txs_size b' = txs_size b) →
  let audited (c' : BatchesContext.t) :=
    BatchesContext.tx_count_ c' = BatchesContext.count (BatchesContext.batches_ c')
    ∧ BatchesContext.tx_count_ c'
      = u64 (BatchesContext.total_txs (BatchesContext.batches_ c')) in
  audited (BatchesContext.insert b c).2
  ∧ audited (BatchesContext.removeBatch b c).2
  ∧ audited (BatchesContext.merge c from).1
  ∧ audited (BatchesContext.merge c from).2
  ∧ audited (BatchesContext.remove pred c).
Proof.
  intros Hc Hf Hsz audited.
  assert (∀ c', BatchesContext.ok c' → audited c') as Haud.
  { intros c' [_ Hcount]. split; [done|]. rewrite <- count_total. done. }
  destruct (merge_ok c from Hc Hf) as [H1 H2].
  split_and!; apply Haud; auto using insert_ok, removeBatch_ok, remove_ok.
Qed.

Lemma C4_witness :
  let c := batches_cache_ one_available in
  let audited (c' : BatchesContext.t) :=
    BatchesContext.tx_count_ c' = BatchesContext.count (BatchesContext.batches_ c')
    ∧ BatchesContext.tx_count_ c'
      = u64 (BatchesContext.total_txs (BatchesContext.batches_ c')) in
  audited (BatchesContext.insert complete_batch c).2
  ∧ audited (BatchesContext.removeBatch complete_batch c).2
  ∧ audited (BatchesContext.merge c BatchesContext.empty).1
  ∧ audited (BatchesContext.merge c BatchesContext.empty).2
  ∧ audited (BatchesContext.remove (touches {[ 7%N ]}) c).
Proof.
  apply (C4_txs_count_is_the_sum (batches_cache_ one_available)
           BatchesContext.empty complete_batch (touches {[ 7%N ]})).
  - apply one_available_ok.
  - apply empty_context_ok.
  - intros b' Hb. cbn in Hb. by apply lookup_singleton_Some in Hb as [_ <-].
Defined.

(** C5.  In every state that calls can produce from the empty cache, the two
    indices of the pending store have the same size, two entries never share
    a timestamp, every entry is filed in [mst_expirations_] under the
    timestamp it stores, and every key of [mst_expirations_] is the stored
    timestamp of the entry it refers to. *)
Theorem C5_pending_indices_agree (c : t) :
  reachable c →
  size (mst_pending_ (mst_state_ c)) = size (mst_expirations_ (mst_state_ c))
  ∧ (∀ rh1 rh2 it1 it2,
       mst_pending_ (mst_state_ c) !! rh1 = Some it1 →
       mst_pending_ (mst_state_ c) !! rh2 = Some it2 →
       timestamp it1 = timestamp it2 → rh1 = rh2)
  ∧ (∀ rh it,
       mst_pending_ (mst_state_ c) !! rh = Some it →
       mst_expirations_ (mst_state_ c) !! timestamp it = Some rh)
  ∧ (∀ ts rh,
       mst_expirations_ (mst_state_ c) !! ts = Some rh →
       ∃ it, mst_pending_ (mst_state_ c) !! rh = Some it ∧ timestamp it = ts).
Proof.
  intros Hr. pose proof (reachable_pending c Hr) as Hinv.
  pose proof Hinv as (H1 & H2 & H3). split_and!; try done.
  intros rh1 rh2 it1 it2. by apply pending_inv_unique.
Qed.

Lemma C5_witness :
  let c := data (exec (call_insertMSTCache partial_alice) (idle empty)) in
  reachable c
  ∧ size (mst_pending_ (mst_state_ c)) = size (mst_expirations_ (mst_state_ c))
  ∧ (∀ rh1 rh2 it1 it2,
       mst_pending_ (mst_state_ c) !! rh1 = Some it1 →
       mst_pending_ (mst_state_ c) !! rh2 = Some it2 →
       timestamp it1 = timestamp it2 → rh1 = rh2)
  ∧ (∀ rh it,
       mst_pending_ (mst_state_ c) !! rh = Some it →
       mst_expirations_ (mst_state_ c) !! timestamp it = Some rh)
  ∧ (∀ ts rh,
       mst_expirations_ (mst_state_ c) !! ts = Some rh →
       ∃ it, mst_pending_ (mst_state_ c) !! rh = Some it ∧ timestamp it = ts).
Proof.
  assert (reachable (data (exec (call_insertMSTCache partial_alice) (idle empty))))
    as Hr by apply reachable_call, reachable_empty.
  split; [exact Hr|]. exact (C5_pending_indices_agree _ Hr).
Defined.

(** C6.  Two partial batches with the same reduced hash and as many
    transactions, given to [insertMSTCache] one after the other in a cache
    that holds neither: in either order both calls return, and the cache then
    holds one batch for that reduced hash (pending, or available when the
    merge completed it) whose signatures are, transaction by transaction,
    those of the first together with those of the second. *)
Theorem C6_signature_merge_commutes (c : t) (P1 P2 : TransactionBatch) :
  reducedHash P1 = reducedHash P2 →
  length (transactions P1) = length (transactions P2) →
  hasAllSignatures P1 = false → hasAllSignatures P2 = false →
  resident c (reducedHash P1) = None →
  (N.of_nat (size (mst_expirations_ (mst_state_ c))) < 2 ^ 64)%N →
  (∃ w1 w12 R,
     insertMSTCache P1 (idle c) = Returned () w1
     ∧ insertMSTCache P2 (idle (data w1)) = Returned () w12
     ∧ resident (data w12) (reducedHash P1) = Some R
     ∧ sigs_union R P1 P2)
  ∧ (∃ w2 w21 R,
       insertMSTCache P2 (idle c) = Returned () w2
       ∧ insertMSTCache P1 (idle (data w2)) = Returned () w21
       ∧ resident (data w21) (reducedHash P1) = Some R
       ∧ sigs_union R P1 P2).
Proof.
  intros Hrh Hlen _ _ Hres Hsz. split.
  - by apply insertMSTCache_pair.
  - destruct (insertMSTCache_pair c P2 P1) as (w2 & w21 & R & H1 & H2 & H3 & H4);
      [done|done|by rewrite <- Hrh|done|].
    exists w2, w21, R. rewrite Hrh. split_and!; try done.
    by apply sigs_union_comm.
Qed.

Lemma C6_witness :
  (∃ w1 w12 R,
     insertMSTCache partial_alice (idle empty) = Returned () w1
     ∧ insertMSTCache partial_bob (idle (data w1)) = Returned () w12
     ∧ resident (data w12) 100%N = Some R
     ∧ sigs_union R partial_alice partial_bob)
  ∧ (∃ w2 w21 R,
       insertMSTCache partial_bob (idle empty) = Returned () w2
       ∧ insertMSTCache partial_alice (idle (data w2)) = Returned () w21
       ∧ resident (data w21) 100%N = Some R
       ∧ sigs_union R partial_alice partial_bob).
Proof.
  apply (C6_signature_merge_commutes empty partial_alice partial_bob);
    try reflexivity.
Defined.

(** C7 (as stated, refuted).  Claiming the batch [complete_batch], which the
    empty cache does not hold, and resolving with no hash leaves that batch
    in the available set; and in [one_claimed], whose used set holds a batch
    from an earlier claim, claiming nothing and resolving with no hash moves
    that batch to the available set.  Both times the available set is not
    what it was. *)
Lemma C7_counterexample :
  ¬ claim_roundtrip_as_stated [complete_batch] empty
  ∧ ¬ claim_roundtrip_as_stated [] one_claimed.
Proof.
  split.
  - intros (_ & w1 & w2 & H1 & H2 & H3).
    rewrite run_processReceivedProposal in H1. injection H1 as <-.
    rewrite run_remove in H2. injection H2 as <-.
    apply (f_equal BatchesContext.tx_count_) in H3. vm_compute in H3.
    discriminate.
  - intros (_ & w1 & w2 & H1 & H2 & H3).
    rewrite run_processReceivedProposal in H1. injection H1 as <-.
    rewrite run_remove in H2. injection H2 as <-.
    apply (f_equal BatchesContext.tx_count_) in H3. vm_compute in H3.
    discriminate.
Qed.

(** C7 (amended).  In every cache and for every proposal, a batch that
    occurs again in the proposal changes nothing.  When every claimed batch
    is a member of the available set and the used set holds no batch,
    [processReceivedProposal] followed by [remove] of no hash gives back the
    available set, members and count, leaves the used set empty and the
    pending store as it was.  The count of the available set is any value
    of its type [uint64_t]; it need not be the sum of the sizes. *)
Theorem C7_claim_then_resolve_restores (batches : list TransactionBatch) (c : t) :
  (∀ b1 b2 b, batches = b1 ++ b :: b2 → b ∈ b1 →
     processReceivedProposal batches (idle c)
     = processReceivedProposal (b1 ++ b2) (idle c))
  ∧ (BatchesContext.batches_ (used_batches_cache_ c) = ∅ →
     (∀ b, b ∈ batches →
           BatchesContext.batches_ (batches_cache_ c) !! batch_id b = Some b) →
     0 ≤ BatchesContext.tx_count_ (batches_cache_ c) < 2 ^ 64 →
     ∃ w1 w2,
       processReceivedProposal batches (idle c) = Returned () w1
       ∧ remove ∅ (idle (data w1)) = Returned () w2
       ∧ batches_cache_ (data w2) = batches_cache_ c
       ∧ BatchesContext.batches_ (used_batches_cache_ (data w2)) = ∅
       ∧ mst_state_ (data w2) = mst_state_ c).
Proof.
  split.
  { intros b1 b2 b -> Hin. rewrite !run_processReceivedProposal.
    by rewrite claimed_duplicate. }
  intros Hused Hmem Hrange.
  assert (BatchesContext.batches_ (batches_cache_ c)
            ##ₘ BatchesContext.batches_ (used_batches_cache_ c)) as Hd.
  { rewrite Hused. apply map_disjoint_empty_r. }
  destruct (claimed_spec batches c Hd Hmem) as (Hm & Ha & Hu & _).
  destruct (claimed_count batches c Hd Hmem) as [Hc Hr]. specialize (Hr Hrange).
  rewrite Hused, total_txs_empty, Z.add_0_r in Hc.
  eexists _, _. split; [apply run_processReceivedProposal|].
  split; [apply run_remove|]. cbn [data].
  set (c' := claimed batches c) in *.
  assert (BatchesContext.keyed (BatchesContext.batches_ (used_batches_cache_ c')))
    as Hk.
  { intros k b. rewrite Hu, Hused. case_decide as Hin; [|by rewrite lookup_empty].
    apply list_elem_of_fmap in Hin as (b0 & -> & Hb0).
    rewrite (Hmem _ Hb0). by intros [= <-]. }
  assert (BatchesContext.batches_ (batches_cache_ c')
            ##ₘ BatchesContext.batches_ (used_batches_cache_ c')) as Hd'.
  { apply map_disjoint_spec. intros k x y. rewrite Ha, Hu.
    case_decide; [done|]. by rewrite Hused, lookup_empty. }
  split_and!.
  - unfold removed. cbn. rewrite remove_nothing by apply touches_empty.
    pose proof (merge_count _ _ Hk Hd' Hr) as Hcount.
    rewrite Hc, (u64_small _ Hrange) in Hcount.
    assert (BatchesContext.batches_
              (BatchesContext.merge (batches_cache_ c') (used_batches_cache_ c')).1
            = BatchesContext.batches_ (batches_cache_ c)) as Hsame.
    { apply map_eq. intros k. rewrite merge_available by done.
      rewrite Ha, Hu, Hused, lookup_empty.
      case_decide; [done|]. by destruct (BatchesContext.batches_ _ !! k). }
    destruct (BatchesContext.merge _ _).1 as [m n], (batches_cache_ c) as [m0 n0].
    cbn in *. by subst.
  - by apply removed_used.
  - unfold removed. cbn. by rewrite prune_empty.
Qed.

Lemma C7_witness :
  (∀ b1 b2 b, [complete_batch; complete_batch] = b1 ++ b :: b2 → b ∈ b1 →
     processReceivedProposal [complete_batch; complete_batch] (idle one_available)
     = processReceivedProposal (b1 ++ b2) (idle one_available))
  ∧ ∃ w1 w2,
      processReceivedProposal [complete_batch; complete_batch] (idle one_available)
      = Returned () w1
      ∧ remove ∅ (idle (data w1)) = Returned () w2
      ∧ batches_cache_ (data w2) = batches_cache_ one_available
      ∧ BatchesContext.batches_ (used_batches_cache_ (data w2)) = ∅
      ∧ mst_state_ (data w2) = mst_state_ one_available.
Proof.
  destruct (C7_claim_then_resolve_restores [complete_batch; complete_batch]
              one_available) as [Hdup Hround].
  split; [exact Hdup|]. apply Hround.
  - reflexivity.
  - intros b Hb. apply elem_of_cons in Hb as [->|Hb]; [reflexivity|].
    apply list_elem_of_singleton in Hb. subst b. reflexivity.
  - cbn. lia.
Defined.

Lemma insert_complete_twice b c :
  insert_complete b (insert_complete b c) = insert_complete b c.
Proof.
  unfold insert_complete. cbn. f_equal.
  - destruct (mst_pending_ (mst_state_ c) !! reducedHash b) as [it|] eqn:E.
    + cbn. by rewrite lookup_delete_eq.
    + by rewrite E.
  - destruct (BatchesContext.batches_ (used_batches_cache_ c) !! batch_id b);
      [done|].
    by rewrite (insert_present b _ (insert_holds b _)).
Qed.

(** C8 (as stated, refuted).  [complete_batch] inserted twice into the empty
    cache: the second call sends [kOnMstPreparedBatches] as well. *)
Lemma C8_counterexample : ¬ prepared_once_as_stated complete_batch empty.
Proof.
  intros (n & w1 & w2 & H1 & H2 & _ & _ & H5).
  rewrite run_insert_complete in H1 by done. injection H1 as <- <-.
  apply (f_equal (λ o, prepared_count (log (world_of o)))) in H2.
  cbn [world_of] in H2. rewrite H5 in H2. vm_compute in H2. discriminate.
Qed.

(** C8 (amended).  A batch that has all signatures, inserted twice in
    succession: both calls return the same count of available transactions,
    the second call leaves the cache as the first left it, and each of the
    two calls sends [kOnMstPreparedBatches] once. *)
Theorem C8_complete_insert_twice (b : TransactionBatch) (c : t) :
  hasAllSignatures b = true →
  ∃ n w1 w2,
    insert b (idle c) = Returned n w1
    ∧ insert b (idle (data w1)) = Returned n w2
    ∧ data w2 = data w1
    ∧ prepared_count (log w1) = 1%nat
    ∧ prepared_count (log w2) = 1%nat.
Proof.
  intros Hall. eexists _, _, _.
  split; [by apply run_insert_complete|]. cbn [data].
  split; [rewrite run_insert_complete by done;
          by rewrite insert_complete_twice|].
  done.
Qed.

Lemma C8_witness :
  hasAllSignatures complete_batch = true
  ∧ ∃ n w1 w2,
      insert complete_batch (idle empty) = Returned n w1
      ∧ insert complete_batch (idle (data w1)) = Returned n w2
      ∧ data w2 = data w1
      ∧ prepared_count (log w1) = 1%nat
      ∧ prepared_count (log w2) = 1%nat.
Proof.
  split; [reflexivity|].
  apply (C8_complete_insert_twice complete_batch empty). reflexivity.
Defined.

(** C9 (the code departs from the claim).  Whatever the batch and the cache,
    [insert] acquires [L_cache] first and acquires [L_pending] while it owns
    [L_cache]: its log breaks the order of the claim.  When the merge
    completes a pending batch, [insert] does not return: [insertMSTCache]
    locks [L_cache] again, which the thread owns. *)
Theorem C9_insert_locks_cache_before_pending :
  (∀ b c, lock_order_ok false (log (world_of (insert b (idle c)))) = false)
  ∧ (∀ hashes c, lock_order_ok false (log (world_of (remove hashes (idle c)))) = true)
  ∧ (∃ n w1 w2, insert partial_alice (idle empty) = Returned n w1
                ∧ insert partial_bob (idle (data w1)) = Deadlock L_cache w2
                ∧ log w2 = [Acquire L_cache; Acquire L_pending]).
Proof.
  split_and!.
  - intros b c. destruct (insert_log_starts b c) as [rest ->]. done.
  - intros hashes c. by rewrite run_remove.
  - eexists _, _, _. split; [by vm_compute|]. split; by vm_compute.
Qed.

(** C10.  When the available and the used set share no batch and every
    claimed batch is a member of the available set,
    [processReceivedProposal] leaves [txsCount] as it was and leaves the
    union of both sets as it was; the two sets still share no batch and the
    pending store is untouched. *)
Theorem C10_claim_only_repartitions (batches : list TransactionBatch) (c : t) :
  BatchesContext.batches_ (batches_cache_ c)
    ##ₘ BatchesContext.batches_ (used_batches_cache_ c) →
  (∀ b, b ∈ batches →
        BatchesContext.batches_ (batches_cache_ c) !! batch_id b = Some b) →
  ∃ w n,
    processReceivedProposal batches (idle c) = Returned () w
    ∧ (∃ w0, txsCount (idle c) = Returned n w0)
    ∧ (∃ w', txsCount (idle (data w)) = Returned n w')
    ∧ BatchesContext.batches_ (batches_cache_ (data w))
        ∪ BatchesContext.batches_ (used_batches_cache_ (data w))
      = BatchesContext.batches_ (batches_cache_ c)
          ∪ BatchesContext.batches_ (used_batches_cache_ c)
    ∧ BatchesContext.batches_ (batches_cache_ (data w))
        ##ₘ BatchesContext.batches_ (used_batches_cache_ (data w))
    ∧ mst_state_ (data w) = mst_state_ c.
Proof.
  intros Hd Hmem.
  destruct (claimed_spec batches c Hd Hmem) as (Hm & Ha & Hu & Ht & _ & _).
  eexists _, _. split; [apply run_processReceivedProposal|]. cbn [data].
  split; [eexists; apply run_txsCount|].
  split; [eexists; rewrite run_txsCount; by rewrite Ht|].
  assert (∀ k, k ∈ batch_id <$> batches →
               is_Some (BatchesContext.batches_ (batches_cache_ c) !! k)) as Hids.
  { intros k (b & -> & Hb)%list_elem_of_fmap. rewrite (Hmem b Hb). by eexists. }
  split_and!; [| |done].
  - apply map_eq. intros k. rewrite !lookup_union, Ha, Hu.
    case_decide as Hk.
    + destruct (Hids k Hk) as [x ->].
      by destruct (BatchesContext.batches_ (used_batches_cache_ c) !! k).
    + done.
  - apply map_disjoint_spec. intros k x y. rewrite Ha, Hu.
    case_decide; [done|]. intros Hx Hy. by eapply map_disjoint_spec.
Qed.

Lemma C10_witness :
  ∃ w n,
    processReceivedProposal [complete_batch] (idle one_available) = Returned () w
    ∧ (∃ w0, txsCount (idle one_available) = Returned n w0)
    ∧ (∃ w', txsCount (idle (data w)) = Returned n w')
    ∧ BatchesContext.batches_ (batches_cache_ (data w))
        ∪ BatchesContext.batches_ (used_batches_cache_ (data w))
      = BatchesContext.batches_ (batches_cache_ one_available)
          ∪ BatchesContext.batches_ (used_batches_cache_ one_available)
    ∧ BatchesContext.batches_ (batches_cache_ (data w))
        ##ₘ BatchesContext.batches_ (used_batches_cache_ (data w))
    ∧ mst_state_ (data w) = mst_state_ one_available.
Proof.
  apply (C10_claim_only_repartitions [complete_batch] one_available).
  - apply map_disjoint_empty_r.
  - intros b Hb. apply list_elem_of_singleton in Hb. subst b. reflexivity.
Defined.

End claims.

(** * Further properties *)

(** ** What the merge of signatures changes *)

Section merge_more.
Implicit Types (t d : Transaction) (sigs : list Signature).

Lemma addSignature_extends t sd pk : tx_extends t (addSignature t sd pk).1.
Proof.
  unfold addSignature, tx_extends. case_decide; simpl; split_and!; try done.
  by apply prefix_app_r.
Qed.

Lemma tx_extends_refl t : tx_extends t t.
Proof. by split_and!. Qed.

Lemma tx_extends_trans t1 t2 t3 :
  tx_extends t1 t2 → tx_extends t2 t3 → tx_extends t1 t3.
Proof.
  intros (? & ? & ? & ?) (? & ? & ? & ?). split_and!; try congruence.
  by etrans.
Qed.

Lemma merge_tx_extends idx t sigs inserted diff :
  tx_extends t (merge_tx idx t sigs inserted diff).1.1.
Proof.
  revert t inserted diff. induction sigs as [|x sigs IH]; intros t inserted diff.
  { apply tx_extends_refl. }
  simpl. pose proof (addSignature_extends t (signedData x) (publicKey x)) as Hx.
  destruct (addSignature t (signedData x) (publicKey x)) as [t' new].
  simpl in Hx. destruct new; (eapply tx_extends_trans; [exact Hx|apply IH]).
Qed.

(** The flag and the diff of the inner loop. *)
Lemma merge_tx_flag idx t sigs inserted diff :
  ((merge_tx idx t sigs inserted diff).1.2 = false
   ↔ inserted = false ∧ sigs ⊆ signatures t)
  ∧ (sigs ⊆ signatures t →
     merge_tx idx t sigs inserted diff = (t, inserted, diff)).
Proof.
  revert t inserted diff. induction sigs as [|x sigs IH]; intros t inserted diff.
  { simpl. split; [|done]. split; [intros ->; split; [done|]|by intros [-> _]].
    apply list_subseteq_nil. }
  simpl. unfold addSignature. rewrite signature_eta.
  case_decide as Hin.
  - destruct (IH t inserted diff) as [H1 H2]. split.
    + rewrite H1. split.
      * intros [-> Hs]. split; [done|].
        intros s [->|Hs']%elem_of_cons; [done|by apply Hs].
      * intros [-> Hs]. split; [done|]. intros s Hs'. apply Hs. by right.
    + intros Hs. apply H2. intros s Hs'. apply Hs. by right.
  - set (t' := mkTransaction _ _ _ _).
    destruct (IH t' true (diff ++ [idx])) as [H1 _]. split.
    + rewrite H1. split; [by intros [? _]|].
      intros [_ Hs]. destruct Hin. apply Hs. by left.
    + intros Hs. destruct Hin. apply Hs. by left.
Qed.

Lemma merge_txs_flag idx (targets donors : list Transaction) inserted diff :
  ((merge_txs idx targets donors inserted diff).1.2 = false
   ↔ inserted = false ∧ donor_covered targets donors)
  ∧ (donor_covered targets donors →
     merge_txs idx targets donors inserted diff = (targets, inserted, diff)).
Proof.
  revert idx donors inserted diff.
  induction targets as [|t targets IH]; intros idx donors inserted diff.
  { simpl. split; [|done]. split; [intros ->; split; [done|constructor]|by intros [-> _]]. }
  destruct donors as [|d donors].
  { simpl. split; [|done]. split; [intros ->; split; [done|constructor]|by intros [-> _]]. }
  simpl. unfold donor_covered. simpl. rewrite Forall_cons. simpl.
  destruct (merge_tx_flag idx t (signatures d) inserted diff) as [H1 H2].
  destruct (merge_tx idx t (signatures d) inserted diff) as [[t' ins'] diff'] eqn:Et.
  simpl in H1.
  destruct (IH (S idx) donors ins' diff') as [H3 H4].
  split.
  - destruct (merge_txs (S idx) targets donors ins' diff') as [[rest ins''] diff''].
    simpl in *. rewrite H3, H1. unfold donor_covered. tauto.
  - intros [Ht Hr]. specialize (H2 Ht). injection H2 as -> -> ->.
    fold (donor_covered targets donors) in Hr. by rewrite (H4 Hr).
Qed.

Lemma merge_txs_covered idx (targets donors : list Transaction) inserted diff :
  donor_covered (merge_txs idx targets donors inserted diff).1.1 donors.
Proof.
  revert idx donors inserted diff.
  induction targets as [|t targets IH]; intros idx donors inserted diff.
  { constructor. }
  destruct donors as [|d donors]; [constructor|]. simpl.
  pose proof (λ s, merge_tx_sigs idx t (signatures d) inserted diff s) as Ht.
  destruct (merge_tx idx t (signatures d) inserted diff) as [[t' ins'] diff'].
  specialize (IH (S idx) donors ins' diff').
  destruct (merge_txs (S idx) targets donors ins' diff') as [[rest ins''] diff''].
  simpl in *. constructor; [|done]. simpl. intros s Hs. apply Ht. by right.
Qed.

Lemma merge_txs_extends idx (targets donors : list Transaction) inserted diff :
  Forall2 tx_extends targets (merge_txs idx targets donors inserted diff).1.1
  ∧ drop (length donors) (merge_txs idx targets donors inserted diff).1.1
    = drop (length donors) targets.
Proof.
  revert idx donors inserted diff.
  induction targets as [|t targets IH]; intros idx donors inserted diff.
  { simpl. split; [constructor|done]. }
  destruct donors as [|d donors].
  { simpl. split; [|done]. apply Forall2_same_length_lookup_2; [done|].
    intros i x y Hx Hy. rewrite Hx in Hy. injection Hy as <-.
    apply tx_extends_refl. }
  simpl.
  pose proof (merge_tx_extends idx t (signatures d) inserted diff) as Ht.
  destruct (merge_tx idx t (signatures d) inserted diff) as [[t' ins'] diff'].
  destruct (IH (S idx) donors ins' diff') as [H1 H2].
  destruct (merge_txs (S idx) targets donors ins' diff') as [[rest ins''] diff''].
  simpl in *. split; [by constructor|done].
Qed.

Lemma merge_tx_diff idx t sigs inserted diff :
  (length (merge_tx idx t sigs inserted diff).2 + length (signatures t)
   = length diff + length (signatures (merge_tx idx t sigs inserted diff).1.1))%nat.
Proof.
  revert t inserted diff. induction sigs as [|x sigs IH]; intros t inserted diff.
  { simpl. lia. }
  simpl. unfold addSignature. case_decide as Hin; [apply IH|].
  set (t' := mkTransaction _ _ _ _).
  pose proof (IH t' true (diff ++ [idx])) as H.
  subst t'. simpl in H. rewrite !length_app in H. simpl in H. lia.
Qed.

Lemma merge_txs_diff idx (targets donors : list Transaction) inserted diff :
  (length (merge_txs idx targets donors inserted diff).2 + total_sigs targets
   = length diff + total_sigs (merge_txs idx targets donors inserted diff).1.1)%nat.
Proof.
  revert idx donors inserted diff.
  induction targets as [|t targets IH]; intros idx donors inserted diff.
  { simpl. lia. }
  destruct donors as [|d donors]; [simpl; lia|]. simpl.
  pose proof (merge_tx_diff idx t (signatures d) inserted diff) as Ht.
  destruct (merge_tx idx t (signatures d) inserted diff) as [[t' ins'] diff'].
  specialize (IH (S idx) donors ins' diff').
  destruct (merge_txs (S idx) targets donors ins' diff') as [[rest ins''] diff''].
  simpl in *.
  change (total_sigs (t :: targets))
    with (length (signatures t) + total_sigs targets)%nat.
  change (total_sigs (t' :: rest))
    with (length (signatures t') + total_sigs rest)%nat.
  lia.
Qed.

Lemma batch_eta (b : TransactionBatch) : mkBatch (reducedHash b) (transactions b) = b.
Proof. by destruct b. Qed.

Lemma mergeSignaturesInBatch_flag (target donor : TransactionBatch) (diff : list nat) :
  ((mergeSignaturesInBatch target donor diff).1.2 = false
   ↔ donor_covered (transactions target) (transactions donor))
  ∧ ((mergeSignaturesInBatch target donor diff).1.2 = false →
     mergeSignaturesInBatch target donor diff = (target, false, diff)).
Proof.
  unfold mergeSignaturesInBatch.
  destruct (merge_txs_flag 0 (transactions target) (transactions donor) false diff)
    as [H1 H2].
  destruct (merge_txs _ _ _ _ _) as [[txs ins] diff'] eqn:E. simpl in *.
  split; [rewrite H1; tauto|].
  intros ->. destruct H1 as [H1 _]. destruct (H1 eq_refl) as [_ Hc].
  specialize (H2 Hc). injection H2 as -> ->. by rewrite batch_eta.
Qed.

Lemma mergeSignaturesInBatch_covered (target donor : TransactionBatch) (diff : list nat) :
  donor_covered (transactions (mergeSignaturesInBatch target donor diff).1.1)
                (transactions donor).
Proof.
  unfold mergeSignaturesInBatch.
  pose proof (merge_txs_covered 0 (transactions target) (transactions donor)
                false diff) as H.
  by destruct (merge_txs _ _ _ _ _) as [[txs ins] diff'].
Qed.

(** X1.  [mergeSignaturesInBatch] returns false exactly when every signature
    of every donor transaction is already in the target transaction it is
    paired with; the target and the diff are then returned as they were. *)
Theorem X1_merge_flag_says_new (target donor : TransactionBatch) (diff : list nat) :
  ((mergeSignaturesInBatch target donor diff).1.2 = false
   ↔ donor_covered (transactions target) (transactions donor))
  ∧ ((mergeSignaturesInBatch target donor diff).1.2 = false →
     mergeSignaturesInBatch target donor diff = (target, false, diff)).
Proof. apply mergeSignaturesInBatch_flag. Qed.

(** X2.  The merge only appends signatures to the target: the reduced hash,
    the number and order of the transactions and their hash, creation time
    and quorum stay, the old signatures stay in front, target transactions
    beyond the last donor transaction are untouched, and the diff grows by
    one entry for each signature added. *)
Theorem X2_merge_only_appends (target donor : TransactionBatch) (diff : list nat) :
  reducedHash (mergeSignaturesInBatch target donor diff).1.1 = reducedHash target
  ∧ Forall2 tx_extends (transactions target)
      (transactions (mergeSignaturesInBatch target donor diff).1.1)
  ∧ drop (length (transactions donor))
      (transactions (mergeSignaturesInBatch target donor diff).1.1)
    = drop (length (transactions donor)) (transactions target)
  ∧ (length (mergeSignaturesInBatch target donor diff).2
     + total_sigs (transactions target)
     = length diff
       + total_sigs (transactions (mergeSignaturesInBatch target donor diff).1.1))%nat.
Proof.
  unfold mergeSignaturesInBatch.
  destruct (merge_txs_extends 0 (transactions target) (transactions donor) false diff)
    as [H1 H2].
  pose proof (merge_txs_diff 0 (transactions target) (transactions donor) false diff)
    as H3.
  destruct (merge_txs _ _ _ _ _) as [[txs ins] diff']. simpl in *. done.
Qed.

(** X3.  Merging the same donor a second time adds nothing: the call returns
    false and leaves the merged target and the diff as they are. *)
Theorem X3_merge_twice_adds_nothing (target donor : TransactionBatch)
    (diff diff2 : list nat) :
  mergeSignaturesInBatch (mergeSignaturesInBatch target donor diff).1.1 donor diff2
  = ((mergeSignaturesInBatch target donor diff).1.1, false, diff2).
Proof.
  apply mergeSignaturesInBatch_flag. apply mergeSignaturesInBatch_flag.
  apply mergeSignaturesInBatch_covered.
Qed.

End merge_more.

(** ** The pending store: timestamps, round trips and frames *)

Section pending_more.
Import BatchesCache.

Lemma same_but_refl rh a : same_but rh a a.
Proof. by split_and!. Qed.

Lemma probe_in_range e ts n r :
  probe e ts n = Some r → (ts < 2 ^ 64)%N → (r < 2 ^ 64)%N.
Proof.
  revert ts. induction n as [|n IH]; intros ts; simpl; [done|].
  destruct (e !! ts); [|by intros [= <-]].
  intros Hp _. apply (IH _ Hp), ts_succ_lt.
Qed.

(** X4.  The probe loop ends within one more turn than the index has keys,
    from any start and also when it wraps around at 2^64; it stops at a
    timestamp that is free, and when it does not wrap around that is the
    least free timestamp from the start upwards. *)
Theorem X4_probe_stops_at_free_timestamp (e : gmap N N) (ts : N) :
  (N.of_nat (size e) < 2 ^ 64)%N → (ts < 2 ^ 64)%N →
  ∃ r, probe e ts (S (size e)) = Some r
       ∧ e !! r = None ∧ (r < 2 ^ 64)%N
       ∧ ((N.of_nat (size e) + ts < 2 ^ 64)%N →
          (ts ≤ r)%N ∧ ∀ t', (ts ≤ t' < r)%N → is_Some (e !! t')).
Proof.
  intros Hsz Hts.
  destruct (probe_total (S (size e)) e ts) as [r Hr]; [lia|lia|done|].
  exists r. split_and!; [done|by eapply probe_free|by eapply probe_in_range|].
  intros Hb. apply (probe_least e ts (S (size e)) r Hr). lia.
Qed.

Lemma X4_witness :
  ∃ r, probe {[ 0%N := 100%N ]} 0 (S (size ({[ 0%N := 100%N ]} : gmap N N))) = Some r
       ∧ ({[ 0%N := 100%N ]} : gmap N N) !! r = None ∧ (r < 2 ^ 64)%N
       ∧ ((N.of_nat (size ({[ 0%N := 100%N ]} : gmap N N)) + 0 < 2 ^ 64)%N →
          (0 ≤ r)%N
          ∧ ∀ t', (0 ≤ t' < r)%N → is_Some (({[ 0%N := 100%N ]} : gmap N N) !! t')).
Proof.
  apply (X4_probe_stops_at_free_timestamp {[ 0%N := 100%N ]} 0); reflexivity.
Defined.

(** X5.  A batch whose reduced hash is not pending is filed under the least
    timestamp that is free, counted from 0, in both indices; the call
    returns, sends one [kOnMstStateUpdate] that carries the batch, and
    leaves the other entries and both sets as they were. *)
Theorem X5_new_entry_takes_least_free_timestamp (b : TransactionBatch) (c : t) :
  mst_pending_ (mst_state_ c) !! reducedHash b = None →
  (N.of_nat (size (mst_expirations_ (mst_state_ c))) < 2 ^ 64)%N →
  ∃ ts w,
    insertMSTCache b (idle c) = Returned () w
    ∧ mst_expirations_ (mst_state_ c) !! ts = None
    ∧ (∀ t', (t' < ts)%N → is_Some (mst_expirations_ (mst_state_ c) !! t'))
    ∧ mst_pending_ (mst_state_ (data w))
      = <[reducedHash b := mkInfo b ts]> (mst_pending_ (mst_state_ c))
    ∧ mst_expirations_ (mst_state_ (data w))
      = <[ts := reducedHash b]> (mst_expirations_ (mst_state_ c))
    ∧ batches_cache_ (data w) = batches_cache_ c
    ∧ used_batches_cache_ (data w) = used_batches_cache_ c
    ∧ notifications (log w) = [(kOnMstStateUpdate, Some b)].
Proof.
  intros Hp Hsz. destruct (probe_ready _ Hsz) as (ts & Hts & Hfree).
  destruct (probe_least _ _ _ _ Hts) as [_ Hocc]; [lia|].
  rewrite <- (oldestTimestamp_zero b) in Hts.
  exists ts. eexists. split; [by apply run_insertMSTCache_new|].
  split_and!; try done. intros t' Ht'. apply Hocc. lia.
Qed.

Lemma X5_witness :
  ∃ ts w,
    insertMSTCache partial_alice (idle empty) = Returned () w
    ∧ mst_expirations_ (mst_state_ empty) !! ts = None
    ∧ (∀ t', (t' < ts)%N → is_Some (mst_expirations_ (mst_state_ empty) !! t'))
    ∧ mst_pending_ (mst_state_ (data w))
      = <[reducedHash partial_alice := mkInfo partial_alice ts]>
          (mst_pending_ (mst_state_ empty))
    ∧ mst_expirations_ (mst_state_ (data w))
      = <[ts := reducedHash partial_alice]> (mst_expirations_ (mst_state_ empty))
    ∧ batches_cache_ (data w) = batches_cache_ empty
    ∧ used_batches_cache_ (data w) = used_batches_cache_ empty
    ∧ notifications (log w) = [(kOnMstStateUpdate, Some partial_alice)].
Proof.
  apply (X5_new_entry_takes_least_free_timestamp partial_alice empty); reflexivity.
Defined.

(** X6.  A donor whose reduced hash is pending never moves the entry: when
    [insertMSTCache] returns, either the entry is still pending under the
    timestamp it had and [mst_expirations_] is as it was, or the entry is
    gone together with its timestamp.  The entries of other reduced hashes
    are as they were.  The used set, and the available set while the entry
    stays pending, keep their identities, their counts and every batch of
    another identity; the batch of the donor's identity may be the merged
    one, and nothing is said of its signatures. *)
Theorem X6_merge_keeps_the_timestamp (b : TransactionBatch) (c : t)
    (it : BatchInfo) (w : World) :
  mst_pending_ (mst_state_ c) !! reducedHash b = Some it →
  insertMSTCache b (idle c) = Returned () w →
  (∀ rh, rh ≠ reducedHash b →
         mst_pending_ (mst_state_ (data w)) !! rh
         = mst_pending_ (mst_state_ c) !! rh)
  ∧ same_but (reducedHash b) (used_batches_cache_ c) (used_batches_cache_ (data w))
  ∧ ((∃ target,
        mst_pending_ (mst_state_ (data w)) !! reducedHash b
        = Some (mkInfo target (timestamp it))
        ∧ mst_expirations_ (mst_state_ (data w)) = mst_expirations_ (mst_state_ c)
        ∧ same_but (reducedHash b) (batches_cache_ c) (batches_cache_ (data w)))
     ∨ (mst_pending_ (mst_state_ (data w)) !! reducedHash b = None
        ∧ mst_expirations_ (mst_state_ (data w))
          = delete (timestamp it) (mst_expirations_ (mst_state_ c)))).
Proof.
  intros Hp Hrun.
  destruct (mergeSignaturesInBatch (batch it) b []) as [[target ins] diff] eqn:Em.
  destruct ins; [destruct (hasAllSignatures target) eqn:Hall|].
  - rewrite (run_insertMSTCache_completed _ _ _ _ _ Hp Em Hall) in Hrun.
    injection Hrun as <-. cbn. split_and!; [|apply same_but_refl|].
    + intros rh Hne. by rewrite lookup_delete_ne, lookup_insert_ne.
    + right. by rewrite lookup_delete_eq.
  - rewrite (run_insertMSTCache_updated _ _ _ _ _ Hp Em Hall) in Hrun.
    injection Hrun as <-. cbn. split_and!; [|apply same_but_refl|].
    + intros rh Hne. by rewrite lookup_insert_ne.
    + left. exists target. rewrite lookup_insert_eq.
      split_and!; [done|done|apply same_but_refl].
  - rewrite (run_insertMSTCache_same _ _ _ _ _ Hp Em) in Hrun.
    injection Hrun as <-. cbn. split_and!; [|apply same_but_refl|].
    + intros rh Hne. by rewrite lookup_insert_ne.
    + left. exists target. rewrite lookup_insert_eq.
      split_and!; [done|done|apply same_but_refl].
Qed.

Lemma run_removeMSTCache b c :
  removeMSTCache b (idle c)
  = Returned ()
      (mkWorld
         (match mst_pending_ (mst_state_ c) !! reducedHash b with
          | Some it => set_mst (erase_entry (reducedHash b) it (mst_state_ c)) c
          | None => c
          end)
         false false [Acquire L_pending; Release L_pending]).
Proof. run. by destruct (mst_pending_ (mst_state_ c) !! reducedHash b). Qed.

(** X7.  [removeMSTCache] undoes [insertMSTCache] of a batch that was not
    pending: after both calls the cache is exactly what it was. *)
Theorem X7_insert_then_remove_pending (b : TransactionBatch) (c : t) :
  mst_pending_ (mst_state_ c) !! reducedHash b = None →
  (N.of_nat (size (mst_expirations_ (mst_state_ c))) < 2 ^ 64)%N →
  ∃ w1 w2,
    insertMSTCache b (idle c) = Returned () w1
    ∧ removeMSTCache b (idle (data w1)) = Returned () w2
    ∧ data w2 = c.
Proof.
  intros Hp Hsz. destruct (probe_ready _ Hsz) as (ts & Hts & Hfree).
  rewrite <- (oldestTimestamp_zero b) in Hts.
  eexists _, _. split; [by apply run_insertMSTCache_new|].
  split; [apply run_removeMSTCache|].
  cbn. rewrite lookup_insert_eq. unfold erase_entry, set_mst. cbn.
  rewrite !delete_insert_id by done. by destruct c as [[] ? ?].
Qed.

Lemma X7_witness :
  ∃ w1 w2,
    insertMSTCache partial_alice (idle empty) = Returned () w1
    ∧ removeMSTCache partial_alice (idle (data w1)) = Returned () w2
    ∧ data w2 = empty.
Proof.
  apply (X7_insert_then_remove_pending partial_alice empty); reflexivity.
Defined.

(** X8.  [removeMSTCache] of a batch always returns and sends nothing; it
    leaves no entry for the reduced hash of the batch, touches no other
    entry and neither set, and when the reduced hash was not pending the
    cache is unchanged. *)
Theorem X8_removeMSTCache_erases_one_entry (b : TransactionBatch) (c : t) :
  ∃ w,
    removeMSTCache b (idle c) = Returned () w
    ∧ mst_pending_ (mst_state_ (data w)) !! reducedHash b = None
    ∧ (∀ rh, rh ≠ reducedHash b →
             mst_pending_ (mst_state_ (data w)) !! rh
             = mst_pending_ (mst_state_ c) !! rh)
    ∧ (mst_pending_ (mst_state_ c) !! reducedHash b = None → data w = c)
    ∧ batches_cache_ (data w) = batches_cache_ c
    ∧ used_batches_cache_ (data w) = used_batches_cache_ c
    ∧ notifications (log w) = [].
Proof.
  eexists. split; [apply run_removeMSTCache|]. cbn.
  destruct (mst_pending_ (mst_state_ c) !! reducedHash b) as [it|] eqn:E; cbn.
  - split_and!; try done.
    + apply lookup_delete_eq.
    + intros rh Hne. by rewrite lookup_delete_ne.
  - by split_and!.
Qed.

Lemma X6_witness :
  let c := pending_and_claimed (three_party [sig_alice]) in
  let donor := three_party [sig_bob] in
  let w := world_of (insertMSTCache donor (idle c)) in
  mst_pending_ (mst_state_ c) !! 300%N = Some (mkInfo (three_party [sig_alice]) 0)
  ∧ BatchesContext.batches_ (used_batches_cache_ c) !! 300%N
    = Some (three_party [sig_alice])
  ∧ insertMSTCache donor (idle c) = Returned () w
  ∧ mst_pending_ (mst_state_ (data w)) !! 300%N
    = Some (mkInfo (three_party [sig_alice; sig_bob]) 0)
  ∧ same_but 300 (used_batches_cache_ c) (used_batches_cache_ (data w))
  ∧ same_but 300 (batches_cache_ c) (batches_cache_ (data w)).
Proof.
  intros c donor w.
  assert (mst_pending_ (mst_state_ c) !! reducedHash donor
          = Some (mkInfo (three_party [sig_alice]) 0)) as H1 by (by vm_compute).
  assert (insertMSTCache donor (idle c) = Returned () w) as H2 by (by vm_compute).
  assert (mst_pending_ (mst_state_ (data w)) !! 300%N
          = Some (mkInfo (three_party [sig_alice; sig_bob]) 0)) as H3
    by (by vm_compute).
  split; [exact H1|]. split; [by vm_compute|]. split; [exact H2|].
  split; [exact H3|].
  destruct (X6_merge_keeps_the_timestamp donor c _ _ H1 H2)
    as (_ & Hu & [(target & _ & _ & Ha)|[Hgone _]]).
  - by split.
  - cbn [reducedHash donor three_party] in Hgone. by rewrite H3 in Hgone.
Defined.

Lemma mergeSignaturesInBatch_reducedHash target donor diff :
  reducedHash (mergeSignaturesInBatch target donor diff).1.1 = reducedHash target.
Proof.
  unfold mergeSignaturesInBatch. by destruct (merge_txs _ _ _ _ _) as [[? ?] ?].
Qed.

Lemma insertMSTCache_keyed b : stable pending_keyed (insertMSTCache b).
Proof.
  apply (stable_with_lock pending_keyed), (stable_get pending_keyed).
  intros c Hc. cbv beta zeta.
  destruct (mst_pending_ (mst_state_ c) !! reducedHash b) as [it|] eqn:E.
  - pose proof (mergeSignaturesInBatch_reducedHash (batch it) b []) as Hrh.
    destruct (mergeSignaturesInBatch (batch it) b [])
      as [[target inserted] diff] eqn:Em.
    simpl in Hrh. rewrite (Hc _ _ E) in Hrh.
    assert (∀ rh it',
              <[reducedHash b := mkInfo target (timestamp it)]>
                (mst_pending_ (mst_state_ c)) !! rh = Some it' →
              reducedHash (batch it') = rh) as Hmerged.
    { intros rh it'. rewrite lookup_insert. case_decide as Hk.
      - intros [= <-]. by subst.
      - apply Hc. }
    apply (stable_bind pending_keyed); [by apply stable_put|]. intros _.
    destruct inserted; [|apply stable_ret].
    destruct (hasAllSignatures target); [|apply stable_notify].
    apply (stable_bind pending_keyed).
    { apply (stable_with_lock pending_keyed), (stable_get pending_keyed).
      intros c' Hc'. by apply stable_put. }
    intros _. apply (stable_get pending_keyed). intros c' Hc'.
    apply (stable_bind pending_keyed); [|intros _; apply stable_notify].
    apply stable_put. intros rh it'. cbn.
    intros [_ Hl]%lookup_delete_Some. by apply Hmerged.
  - destruct (probe _ _ _) as [ts|]; [|apply stable_spin].
    apply (stable_bind pending_keyed); [|intros _; apply stable_notify].
    apply stable_put. intros rh it'. cbn. rewrite lookup_insert.
    case_decide as Hk; [|apply Hc]. intros [= <-]. by subst.
Qed.

Lemma removeMSTCache_keyed b : stable pending_keyed (removeMSTCache b).
Proof.
  apply (stable_with_lock pending_keyed), (stable_get pending_keyed).
  intros c Hc. cbv beta zeta.
  destruct (mst_pending_ (mst_state_ c) !! reducedHash b) as [it|] eqn:E;
    [|apply stable_ret].
  apply stable_put. intros rh it'. cbn.
  intros [_ Hl]%lookup_delete_Some. by apply Hc.
Qed.

Lemma removeMSTCache_hashes_keyed hashes :
  stable pending_keyed (removeMSTCache_hashes hashes).
Proof.
  apply (stable_with_lock pending_keyed), (stable_get pending_keyed).
  intros c Hc. apply stable_put. intros rh it'. cbn. rewrite prune_lookup.
  destruct (mst_pending_ (mst_state_ c) !! rh) as [x|] eqn:E; [|done].
  destruct (touches hashes (batch x)); [done|]. intros [= <-]. by apply Hc.
Qed.

Lemma exec_keyed k c : pending_keyed c → pending_keyed (data (exec k (idle c))).
Proof.
  intros Hc. destruct k as [b|h|bs|b|b|h]; cbn [exec].
  - apply (stable_with_lock pending_keyed (A:=Z)); [|done].
    apply (stable_bind pending_keyed).
    + destruct (hasAllSignatures b); [|apply insertMSTCache_keyed].
      apply (stable_get pending_keyed). intros c0 Hc0.
      apply (stable_bind pending_keyed).
      { destruct (_ !! _); [apply stable_ret|]. by apply stable_put. }
      intros _. apply (stable_bind pending_keyed); [apply removeMSTCache_keyed|].
      intros _. apply stable_notify.
    + intros _. apply (stable_get pending_keyed). intros c0 Hc0. apply stable_ret.
  - apply (stable_bind pending_keyed (removeMSTCache_hashes h)); [| |done].
    + apply removeMSTCache_hashes_keyed.
    + intros _. apply (stable_with_lock pending_keyed), (stable_get pending_keyed).
      intros c0 Hc0. destruct (BatchesContext.merge _ _) as [available used].
      by apply stable_put.
  - rewrite run_processReceivedProposal. cbn. unfold pending_keyed, claimed.
    by rewrite claim_mst.
  - by apply (insertMSTCache_keyed b).
  - by apply (removeMSTCache_keyed b).
  - by apply (removeMSTCache_hashes_keyed h).
Qed.

(** X9.  In every state that calls produce from the empty cache, every
    pending entry is stored under the reduced hash of the batch it holds:
    the merge of signatures never changes the reduced hash of its target. *)
Theorem X9_pending_entries_keyed_by_reduced_hash (c : t) :
  reachable c →
  ∀ rh it, mst_pending_ (mst_state_ c) !! rh = Some it →
           reducedHash (batch it) = rh.
Proof.
  induction 1 as [|c k _ IH].
  - intros rh it Hl. cbn in Hl. by rewrite lookup_empty in Hl.
  - by apply exec_keyed.
Qed.

Lemma X9_witness :
  reachable one_pending
  ∧ ∀ rh it, mst_pending_ (mst_state_ one_pending) !! rh = Some it →
             reducedHash (batch it) = rh.
Proof.
  assert (reachable one_pending) as Hr
    by apply (reachable_call empty (call_insertMSTCache partial_alice)),
             reachable_empty.
  split; [exact Hr|]. exact (X9_pending_entries_keyed_by_reduced_hash _ Hr).
Defined.

End pending_more.

(** ** The counted sets: round trips and conservation *)

Section context_more.
Import BatchesContext.

Lemma merge_total_loop self from (m : gmap N TransactionBatch) :
  u64 (tx_count_ (map_fold merge_step (self, from) m).1
       + tx_count_ (map_fold merge_step (self, from) m).2)
  = u64 (tx_count_ self + tx_count_ from).
Proof.
  induction m as [|i x m Hi Hfirst IH] using map_first_key_ind.
  { by rewrite map_fold_empty. }
  rewrite map_fold_insert_first_key by done.
  destruct (map_fold merge_step (self, from) m) as [s f]. simpl in *.
  unfold merge_step. destruct (batches_ s !! batch_id x); [done|]. simpl.
  rewrite <- IH. unfold u64. rewrite <- Zplus_mod. f_equal. lia.
Qed.

(** X10.  [merge] loses and invents nothing.  The members of the receiving
    set stay; a batch of the drained set moves across when the receiving set
    has none of its identity, and otherwise stays where it was, so that the
    drained set ends with the duplicates only; and the two counts together
    are what they were. *)
Theorem X10_merge_moves_all_but_duplicates (self from : t) :
  keyed (batches_ from) →
  (∀ k b, batches_ self !! k = Some b → batches_ (merge self from).1 !! k = Some b)
  ∧ (∀ k b, batches_ from !! k = Some b → batches_ self !! k = None →
            batches_ (merge self from).1 !! k = Some b
            ∧ batches_ (merge self from).2 !! k = None)
  ∧ (∀ k b, batches_ (merge self from).2 !! k = Some b ↔
            batches_ from !! k = Some b ∧ is_Some (batches_ self !! k))
  ∧ (∀ k b, batches_ (merge self from).1 !! k = Some b →
            batches_ self !! k = Some b ∨ batches_ from !! k = Some b)
  ∧ u64 (tx_count_ (merge self from).1 + tx_count_ (merge self from).2)
    = u64 (tx_count_ self + tx_count_ from).
Proof.
  intros Hk. split_and!.
  - intros k b Hs. by rewrite merge_available, Hs.
  - intros k b Hf Hs. by rewrite merge_available, merge_rest, Hs.
  - intros k b. rewrite merge_rest by done.
    destruct (batches_ self !! k) as [x|].
    + split; [intros ->; split; [done|by eexists]|by intros [? _]].
    + split; [done|]. by intros [_ [? ?]].
  - intros k b. rewrite merge_available by done.
    destruct (batches_ self !! k); [by left|by right].
  - apply merge_total_loop.
Qed.

Lemma X10_witness :
  let self := BatchesCache.batches_cache_ one_available in
  let r := merge self two_batches in
  keyed (batches_ two_batches)
  ∧ batches_ r.1 !! 100%N = Some complete_batch
  ∧ (batches_ r.1 !! 200%N = Some other_batch ∧ batches_ r.2 !! 200%N = None)
  ∧ batches_ r.2 !! 100%N = Some partial_alice
  ∧ u64 (tx_count_ r.1 + tx_count_ r.2) = u64 (tx_count_ self + tx_count_ two_batches).
Proof.
  intros self r.
  assert (keyed (batches_ two_batches)) as Hk.
  { intros k b Hb. cbn in Hb.
    apply lookup_insert_Some in Hb as [[<- <-]|[_ Hb]]; [reflexivity|].
    apply lookup_singleton_Some in Hb as [<- <-]. reflexivity. }
  destruct (X10_merge_moves_all_but_duplicates self two_batches Hk)
    as (Hstay & Hmove & Hrest & _ & Hsum).
  split; [exact Hk|]. split; [|split; [|split]].
  - apply Hstay. by vm_compute.
  - apply Hmove; by vm_compute.
  - apply Hrest. split; [by vm_compute|]. exists complete_batch. by vm_compute.
  - exact Hsum.
Defined.

(** X11.  [removeBatch] undoes [insert] of a batch whose identity the set
    did not hold: both calls report a change and the set and its count are
    what they were.  An [insert] right after an [insert] of the same batch
    reports no change and changes nothing. *)
Theorem X11_insert_then_removeBatch (b : TransactionBatch) (c : t) :
  batches_ c !! batch_id b = None → 0 ≤ tx_count_ c < 2 ^ 64 →
  (insert b c).1 = true
  ∧ removeBatch b (insert b c).2 = (true, c)
  ∧ insert b (insert b c).2 = (false, (insert b c).2).
Proof.
  intros Hb Hrange. rewrite (insert_absent _ _ Hb). cbn. split_and!; [done| |].
  - erewrite removeBatch_present by apply lookup_insert_eq. cbn.
    rewrite delete_insert_id by done. rewrite u64_add_sub by done.
    by destruct c.
  - apply insert_present. cbn. rewrite lookup_insert_eq. by eexists.
Qed.

Lemma X11_witness :
  batches_ empty !! batch_id complete_batch = None
  ∧ 0 ≤ tx_count_ empty < 2 ^ 64
  ∧ (insert complete_batch empty).1 = true
  ∧ removeBatch complete_batch (insert complete_batch empty).2 = (true, empty)
  ∧ insert complete_batch (insert complete_batch empty).2
    = (false, (insert complete_batch empty).2).
Proof.
  split; [reflexivity|]. split; [cbn; lia|].
  apply (X11_insert_then_removeBatch complete_batch empty); [reflexivity|cbn; lia].
Defined.

End context_more.

(** ** Resolving a proposal: what survives *)

Section remove_more.
Import BatchesCache.

(** X12.  In a cache whose available and used sets share no identity,
    [remove] returns and the available set then holds exactly the batches
    that were available or in the used set and that have no transaction
    hash among [hashes].  No notification is sent. *)
Theorem X12_remove_keeps_the_untouched (hashes : gset N) (c : t) :
  BatchesContext.keyed (BatchesContext.batches_ (used_batches_cache_ c)) →
  BatchesContext.batches_ (batches_cache_ c)
    ##ₘ BatchesContext.batches_ (used_batches_cache_ c) →
  ∃ w,
    remove hashes (idle c) = Returned () w
    ∧ (∀ k b,
         BatchesContext.batches_ (batches_cache_ (data w)) !! k = Some b ↔
         touches hashes b = false
         ∧ (BatchesContext.batches_ (batches_cache_ c) !! k = Some b
            ∨ BatchesContext.batches_ (used_batches_cache_ c) !! k = Some b))
    ∧ notifications (log w) = [].
Proof.
  intros Hk Hd. eexists. split; [apply run_remove|]. cbn [data log].
  split; [|done].
  intros k b. unfold removed. cbn. rewrite remove_lookup, merge_available by done.
  destruct (BatchesContext.batches_ (batches_cache_ c) !! k) as [x|] eqn:Ea.
  - assert (BatchesContext.batches_ (used_batches_cache_ c) !! k = None) as ->
      by (by eapply map_disjoint_Some_l).
    destruct (touches hashes x) eqn:Et.
    + split; [done|]. intros [Hb [[= ->]|?]]; [congruence|done].
    + split; [intros [= <-]; by auto|]. by intros [_ [[= ->]|?]].
  - destruct (BatchesContext.batches_ (used_batches_cache_ c) !! k) as [x|].
    + destruct (touches hashes x) eqn:Et.
      * split; [done|]. intros [Hb [?|[= ->]]]; [done|congruence].
      * split; [intros [= <-]; by auto|]. by intros [_ [?|[= ->]]].
    + split; [done|]. by intros [_ [?|?]].
Qed.

Lemma X12_witness :
  BatchesContext.keyed (BatchesContext.batches_ (used_batches_cache_ two_sets))
  ∧ BatchesContext.batches_ (batches_cache_ two_sets)
      ##ₘ BatchesContext.batches_ (used_batches_cache_ two_sets)
  ∧ ∃ w,
      remove {[ 7%N ]} (idle two_sets) = Returned () w
      ∧ BatchesContext.batches_ (batches_cache_ (data w)) !! 200%N
        = Some other_batch
      ∧ BatchesContext.batches_ (batches_cache_ (data w)) !! 100%N = None
      ∧ notifications (log w) = [].
Proof.
  assert (BatchesContext.keyed
            (BatchesContext.batches_ (used_batches_cache_ two_sets))) as Hk.
  { intros k b Hb. cbn in Hb. apply lookup_singleton_Some in Hb as [<- <-].
    reflexivity. }
  assert (BatchesContext.batches_ (batches_cache_ two_sets)
            ##ₘ BatchesContext.batches_ (used_batches_cache_ two_sets)) as Hd.
  { apply map_disjoint_spec. intros k x y Hx Hy. cbn in Hx, Hy.
    apply lookup_singleton_Some in Hx as [<- _].
    apply lookup_singleton_Some in Hy as [Hy _]. discriminate. }
  split; [exact Hk|]. split; [exact Hd|].
  destruct (X12_remove_keeps_the_untouched {[ 7%N ]} two_sets Hk Hd)
    as (w & Hrun & Hiff & Hlog).
  exists w. split_and!; [exact Hrun| | |exact Hlog].
  - apply Hiff. split; [by vm_compute|]. right. by vm_compute.
  - destruct (BatchesContext.batches_ (batches_cache_ (data w)) !! 100%N)
      as [b|] eqn:Eb; [|done].
    apply Hiff in Eb as [Ht [Hb|Hb]]; cbn in Hb.
    + apply lookup_singleton_Some in Hb as [_ <-]. by vm_compute in Ht.
    + apply lookup_singleton_Some in Hb as [Hb _]. discriminate.
Defined.

(** X13.  After [remove], the pending store holds exactly the entries it
    held whose batch has no transaction hash among [hashes], each with its
    batch and timestamp, and [mst_expirations_] holds exactly the timestamps
    of these entries. *)
Theorem X13_remove_prunes_pending_exactly (hashes : gset N) (c : t) :
  pending_inv (mst_state_ c) →
  ∃ w,
    remove hashes (idle c) = Returned () w
    ∧ (∀ rh it,
         mst_pending_ (mst_state_ (data w)) !! rh = Some it ↔
         mst_pending_ (mst_state_ c) !! rh = Some it
         ∧ touches hashes (batch it) = false)
    ∧ (∀ ts rh,
         mst_expirations_ (mst_state_ (data w)) !! ts = Some rh ↔
         ∃ it, mst_pending_ (mst_state_ c) !! rh = Some it
               ∧ timestamp it = ts ∧ touches hashes (batch it) = false).
Proof.
  intros Hinv. eexists. split; [apply run_remove|]. cbn [data].
  assert (∀ rh it,
            mst_pending_ (mst_state_ (removed hashes c)) !! rh = Some it ↔
            mst_pending_ (mst_state_ c) !! rh = Some it
            ∧ touches hashes (batch it) = false) as Hp.
  { intros rh it. unfold removed. cbn. rewrite prune_lookup.
    destruct (mst_pending_ (mst_state_ c) !! rh) as [x|].
    - destruct (touches hashes (batch x)) eqn:Et.
      + split; [done|]. intros [[= ->] ?]. congruence.
      + split; [by intros [= <-]|]. by intros [[= ->] _].
    - split; [done|]. by intros [? _]. }
  split; [exact Hp|].
  pose proof (pending_inv_prune hashes _ Hinv) as (_ & H2 & H3).
  intros ts rh. unfold removed in *. cbn in *. split.
  - intros He. destruct (H3 _ _ He) as (it & Hit & Hts).
    apply Hp in Hit as [Hit Ht]. by exists it.
  - intros (it & Hit & <- & Ht). apply H2. by apply Hp.
Qed.

Lemma X13_witness :
  pending_inv (mst_state_ one_pending)
  ∧ ∃ w,
      remove {[ 7%N ]} (idle one_pending) = Returned () w
      ∧ (∀ rh it,
           mst_pending_ (mst_state_ (data w)) !! rh = Some it ↔
           mst_pending_ (mst_state_ one_pending) !! rh = Some it
           ∧ touches {[ 7%N ]} (batch it) = false)
      ∧ (∀ ts rh,
           mst_expirations_ (mst_state_ (data w)) !! ts = Some rh ↔
           ∃ it, mst_pending_ (mst_state_ one_pending) !! rh = Some it
                 ∧ timestamp it = ts ∧ touches {[ 7%N ]} (batch it) = false).
Proof.
  assert (pending_inv (mst_state_ one_pending)) as Hinv.
  { apply reachable_pending.
    apply (reachable_call empty (call_insertMSTCache partial_alice)),
          reachable_empty. }
  split; [exact Hinv|].
  exact (X13_remove_prunes_pending_exactly {[ 7%N ]} one_pending Hinv).
Defined.

End remove_more.

(** ** insert: when it returns and what it leaves *)

Section insert_more.
Import BatchesCache.

Lemma run_insert_new b c ts :
  hasAllSignatures b = false →
  mst_pending_ (mst_state_ c) !! reducedHash b = None →
  probe (mst_expirations_ (mst_state_ c)) (oldestTimestamp b)
        (S (size (mst_expirations_ (mst_state_ c)))) = Some ts →
  insert b (idle c)
  = Returned (BatchesContext.tx_count_ (batches_cache_ c))
      (mkWorld
         (set_mst
            (mkMST (<[reducedHash b := mkInfo b ts]> (mst_pending_ (mst_state_ c)))
                   (<[ts := reducedHash b]> (mst_expirations_ (mst_state_ c)))
                   (mst_diff (mst_state_ c))) c)
         false false
         [Acquire L_cache; Acquire L_pending;
          Notify kOnMstStateUpdate (Some b); Release L_pending; Release L_cache]).
Proof. intros Hb Hp Hts. run. rewrite Hb, Hp, Hts. done. Qed.

Lemma run_insert_same b c it target diff :
  hasAllSignatures b = false →
  mst_pending_ (mst_state_ c) !! reducedHash b = Some it →
  mergeSignaturesInBatch (batch it) b [] = (target, false, diff) →
  insert b (idle c)
  = Returned (BatchesContext.tx_count_ (batches_cache_ c))
      (mkWorld (set_mst (merged_state c (reducedHash b) it target diff) c)
         false false
         [Acquire L_cache; Acquire L_pending; Release L_pending; Release L_cache]).
Proof. intros Hb Hp Hm. run. rewrite Hb, Hp, Hm. done. Qed.

Lemma run_insert_updated b c it target diff :
  hasAllSignatures b = false →
  mst_pending_ (mst_state_ c) !! reducedHash b = Some it →
  mergeSignaturesInBatch (batch it) b [] = (target, true, diff) →
  hasAllSignatures target = false →
  insert b (idle c)
  = Returned (BatchesContext.tx_count_ (batches_cache_ c))
      (mkWorld (set_mst (merged_state c (reducedHash b) it target diff) c)
         false false
         [Acquire L_cache; Acquire L_pending;
          Notify kOnMstStateUpdate (Some target);
          Release L_pending; Release L_cache]).
Proof. intros Hb Hp Hm Hall. run. rewrite Hb, Hp, Hm. run. rewrite Hall. done. Qed.

Lemma run_insert_blocked b c it target diff :
  hasAllSignatures b = false →
  mst_pending_ (mst_state_ c) !! reducedHash b = Some it →
  mergeSignaturesInBatch (batch it) b [] = (target, true, diff) →
  hasAllSignatures target = true →
  insert b (idle c)
  = Deadlock L_cache
      (mkWorld (set_mst (merged_state c (reducedHash b) it target diff) c)
         true true [Acquire L_cache; Acquire L_pending]).
Proof. intros Hb Hp Hm Hall. run. rewrite Hb, Hp, Hm. run. rewrite Hall. done. Qed.

(** X14.  [insert] fails to return in exactly one case: the batch lacks
    signatures, its reduced hash is pending, and the merge adds a signature
    that completes the pending batch.  The call then stops where
    [insertMSTCache] locks [batches_cache_cs_], which [insert] owns: up to
    there it has sent nothing, the merged signatures are in the pending
    entry, and the available set has the identities and the count it had.
    In every other case [insert] returns and owns no lock afterwards. *)
Theorem X14_insert_returns_unless_completion (b : TransactionBatch) (c : t) :
  (N.of_nat (size (mst_expirations_ (mst_state_ c))) < 2 ^ 64)%N →
  (completes_pending b c →
   ∃ w, insert b (idle c) = Deadlock L_cache w
        ∧ notifications (log w) = []
        ∧ same_but (reducedHash b) (batches_cache_ c) (batches_cache_ (data w))
        ∧ ∃ it, mst_pending_ (mst_state_ (data w)) !! reducedHash b = Some it
                ∧ hasAllSignatures (batch it) = true)
  ∧ (¬ completes_pending b c →
     ∃ n w, insert b (idle c) = Returned n w
            ∧ pending_held w = false ∧ cache_held w = false).
Proof.
  intros Hsz. split.
  - intros (Hb & it & Hp & Hins & Hall).
    destruct (mergeSignaturesInBatch (batch it) b []) as [[target ins] diff] eqn:Em.
    simpl in *. subst ins.
    eexists. split; [by eapply run_insert_blocked|]. cbn.
    split; [done|]. split; [apply same_but_refl|].
    eexists. by rewrite lookup_insert_eq.
  - intros Hnot. destruct (hasAllSignatures b) eqn:Hb.
    { eexists _, _. by split; [apply run_insert_complete|]. }
    destruct (mst_pending_ (mst_state_ c) !! reducedHash b) as [it|] eqn:Hp.
    + destruct (mergeSignaturesInBatch (batch it) b []) as [[target ins] diff] eqn:Em.
      destruct ins; [destruct (hasAllSignatures target) eqn:Hall|].
      * destruct Hnot. split; [done|]. exists it. by rewrite Em.
      * eexists _, _. by split; [eapply run_insert_updated|].
      * eexists _, _. by split; [eapply run_insert_same|].
    + destruct (probe_ready _ Hsz) as (ts & Hts & _).
      rewrite <- (oldestTimestamp_zero b) in Hts.
      eexists _, _. by split; [eapply run_insert_new|].
Qed.

Lemma X14_witness :
  (N.of_nat (size (mst_expirations_ (mst_state_ one_pending))) < 2 ^ 64)%N
  ∧ completes_pending partial_bob one_pending
  ∧ ∃ w, insert partial_bob (idle one_pending) = Deadlock L_cache w
         ∧ notifications (log w) = []
         ∧ same_but (reducedHash partial_bob) (batches_cache_ one_pending)
             (batches_cache_ (data w))
         ∧ ∃ it, mst_pending_ (mst_state_ (data w)) !! reducedHash partial_bob
                 = Some it
                 ∧ hasAllSignatures (batch it) = true.
Proof.
  assert ((N.of_nat (size (mst_expirations_ (mst_state_ one_pending))) < 2 ^ 64)%N)
    as Hsz by (by vm_compute).
  assert (completes_pending partial_bob one_pending) as Hc.
  { split; [reflexivity|]. exists (mkInfo partial_alice 0). by vm_compute. }
  split; [exact Hsz|]. split; [exact Hc|].
  exact (proj1 (X14_insert_returns_unless_completion partial_bob one_pending Hsz)
           Hc).
Defined.

(** What [insert] returns is the count of the available set it leaves. *)
Lemma insert_returns_count b c n w :
  insert b (idle c) = Returned n w →
  n = BatchesContext.tx_count_ (batches_cache_ (data w)).
Proof.
  destruct (hasAllSignatures b) eqn:Hb.
  { rewrite run_insert_complete by done. by intros [= <- <-]. }
  destruct (mst_pending_ (mst_state_ c) !! reducedHash b) as [it|] eqn:Hp.
  - destruct (mergeSignaturesInBatch (batch it) b []) as [[target ins] diff] eqn:Em.
    destruct ins; [destruct (hasAllSignatures target) eqn:Hall|].
    + by rewrite (run_insert_blocked _ _ _ _ _ Hb Hp Em Hall).
    + rewrite (run_insert_updated _ _ _ _ _ Hb Hp Em Hall). by intros [= <- <-].
    + rewrite (run_insert_same _ _ _ _ _ Hb Hp Em). by intros [= <- <-].
  - destruct (probe (mst_expirations_ (mst_state_ c)) (oldestTimestamp b)
                (S (size (mst_expirations_ (mst_state_ c))))) as [ts|] eqn:Hts.
    + rewrite (run_insert_new _ _ _ Hb Hp Hts). by intros [= <- <-].
    + run. by rewrite Hb, Hp, Hts.
Qed.

(** X15.  A batch that lacks signatures never reaches the available set
    through [insert]: when the call returns, the available set and the used
    set hold the identities they held, with the same counts and the same
    batch under every identity but that of the batch inserted; the value
    returned is the count of available transactions from before the call,
    and no [kOnMstPreparedBatches] was sent. *)
Theorem X15_partial_insert_leaves_the_sets (b : TransactionBatch) (c : t)
    (n : Z) (w : World) :
  hasAllSignatures b = false →
  insert b (idle c) = Returned n w →
  same_but (reducedHash b) (batches_cache_ c) (batches_cache_ (data w))
  ∧ same_but (reducedHash b) (used_batches_cache_ c) (used_batches_cache_ (data w))
  ∧ n = BatchesContext.tx_count_ (batches_cache_ c)
  ∧ prepared_count (log w) = 0%nat.
Proof.
  intros Hb Hrun. destruct (insert_partial_sets b c Hb) as [H1 H2].
  rewrite Hrun in H1, H2. cbn in H1, H2. split_and!.
  - rewrite H1. apply same_but_refl.
  - rewrite H2. apply same_but_refl.
  - rewrite <- H1. by eapply insert_returns_count.
  - destruct (mst_pending_ (mst_state_ c) !! reducedHash b) as [it|] eqn:Hp.
    + destruct (mergeSignaturesInBatch (batch it) b []) as [[target ins] diff] eqn:Em.
      destruct ins; [destruct (hasAllSignatures target) eqn:Hall|].
      * by rewrite (run_insert_blocked _ _ _ _ _ Hb Hp Em Hall) in Hrun.
      * rewrite (run_insert_updated _ _ _ _ _ Hb Hp Em Hall) in Hrun.
        by injection Hrun as _ <-.
      * rewrite (run_insert_same _ _ _ _ _ Hb Hp Em) in Hrun.
        by injection Hrun as _ <-.
    + destruct (probe (mst_expirations_ (mst_state_ c)) (oldestTimestamp b)
                  (S (size (mst_expirations_ (mst_state_ c))))) as [ts|] eqn:Hts.
      * rewrite (run_insert_new _ _ _ Hb Hp Hts) in Hrun. by injection Hrun as _ <-.
      * revert Hrun. run. by rewrite Hb, Hp, Hts.
Qed.

Lemma X15_witness :
  let c := pending_and_claimed (three_party [sig_alice]) in
  let donor := three_party [sig_bob] in
  let w := world_of (insert donor (idle c)) in
  hasAllSignatures donor = false
  ∧ BatchesContext.batches_ (used_batches_cache_ c) !! 300%N
    = Some (three_party [sig_alice])
  ∧ insert donor (idle c) = Returned 0 w
  ∧ mst_pending_ (mst_state_ (data w)) !! 300%N
    = Some (mkInfo (three_party [sig_alice; sig_bob]) 0)
  ∧ same_but 300 (batches_cache_ c) (batches_cache_ (data w))
  ∧ same_but 300 (used_batches_cache_ c) (used_batches_cache_ (data w))
  ∧ prepared_count (log w) = 0%nat.
Proof.
  intros c donor w.
  assert (hasAllSignatures donor = false) as H1 by reflexivity.
  assert (insert donor (idle c) = Returned 0 w) as H2 by (by vm_compute).
  split; [exact H1|]. split; [by vm_compute|]. split; [exact H2|].
  split; [by vm_compute|].
  destruct (X15_partial_insert_leaves_the_sets donor c 0 w H1 H2)
    as (Ha & Hu & _ & Hn).
  by split_and!.
Defined.

(** X16.  [insert] of a batch that has all signatures returns; afterwards no
    pending entry has its reduced hash, the entries of other reduced hashes
    and the used set are as they were, a batch of its identity is available
    or in the used set, and the value returned is what [availableTxsCount]
    reports next.  The available set changes only if neither set held the
    identity: it then gains the batch and its count grows by the size of the
    batch modulo 2^64. *)
Theorem X16_complete_insert_result (b : TransactionBatch) (c : t) :
  hasAllSignatures b = true →
  ∃ n w w',
    insert b (idle c) = Returned n w
    ∧ availableTxsCount (idle (data w)) = Returned n w'
    ∧ mst_pending_ (mst_state_ (data w)) !! reducedHash b = None
    ∧ (∀ rh, rh ≠ reducedHash b →
             mst_pending_ (mst_state_ (data w)) !! rh
             = mst_pending_ (mst_state_ c) !! rh)
    ∧ used_batches_cache_ (data w) = used_batches_cache_ c
    ∧ (is_Some (BatchesContext.batches_ (batches_cache_ (data w)) !! batch_id b)
       ∨ is_Some (BatchesContext.batches_ (used_batches_cache_ (data w)) !! batch_id b))
    ∧ (is_Some (BatchesContext.batches_ (batches_cache_ c) !! batch_id b)
       ∨ is_Some (BatchesContext.batches_ (used_batches_cache_ c) !! batch_id b) →
       batches_cache_ (data w) = batches_cache_ c)
    ∧ (BatchesContext.batches_ (batches_cache_ c) !! batch_id b = None →
       BatchesContext.batches_ (used_batches_cache_ c) !! batch_id b = None →
       batches_cache_ (data w)
       = BatchesContext.mk
           (<[batch_id b := b]> (BatchesContext.batches_ (batches_cache_ c)))
           (u64 (BatchesContext.tx_count_ (batches_cache_ c) + txs_size b))).
Proof.
  intros Hb. eexists _, _, _. split; [by apply run_insert_complete|].
  cbn [data]. split; [reflexivity|]. unfold insert_complete. cbn.
  split_and!.
  - destruct (mst_pending_ (mst_state_ c) !! reducedHash b) eqn:E; cbn;
      [apply lookup_delete_eq|done].
  - intros rh Hne.
    destruct (mst_pending_ (mst_state_ c) !! reducedHash b); cbn; [|done].
    by rewrite lookup_delete_ne.
  - done.
  - destruct (BatchesContext.batches_ (used_batches_cache_ c) !! batch_id b) eqn:E.
    + right. by eexists.
    + left. apply insert_holds.
  - intros [Ha|Hu].
    + destruct (BatchesContext.batches_ (used_batches_cache_ c) !! batch_id b);
        [done|]. by rewrite insert_present.
    + destruct Hu as [x ->]. done.
  - intros Ha Hu. rewrite Hu. by rewrite insert_absent.
Qed.

Lemma X16_witness :
  hasAllSignatures complete_batch = true
  ∧ ∃ n w w',
      insert complete_batch (idle empty) = Returned n w
      ∧ availableTxsCount (idle (data w)) = Returned n w'
      ∧ mst_pending_ (mst_state_ (data w)) !! reducedHash complete_batch = None.
Proof.
  split; [reflexivity|].
  destruct (X16_complete_insert_result complete_batch empty eq_refl)
    as (n & w & w' & H1 & H2 & H3 & _).
  by exists n, w, w'.
Defined.

(** X17.  A batch named by a proposal cannot come back through [insert]:
    after [processReceivedProposal], whatever the cache held, [insert] of a
    batch of the proposal that has all signatures returns and leaves the
    available set and its count as they were, without the batch. *)
Theorem X17_claimed_batch_stays_out (batches : list TransactionBatch)
    (b : TransactionBatch) (c : t) :
  b ∈ batches → hasAllSignatures b = true →
  ∃ w1 n w2,
    processReceivedProposal batches (idle c) = Returned () w1
    ∧ insert b (idle (data w1)) = Returned n w2
    ∧ batches_cache_ (data w2) = batches_cache_ (data w1)
    ∧ BatchesContext.batches_ (batches_cache_ (data w2)) !! batch_id b = None
    ∧ is_Some (BatchesContext.batches_ (used_batches_cache_ (data w2)) !! batch_id b).
Proof.
  intros Hin Hb. destruct (claimed_holds batches b c Hin) as [Ha [x Hu]].
  eexists _, _, _. split; [apply run_processReceivedProposal|]. cbn [data].
  split; [by apply run_insert_complete|]. cbn [data].
  unfold insert_complete. cbn. rewrite Hu. split_and!; [done|done|by eexists].
Qed.

Lemma X17_witness :
  complete_batch ∈ [complete_batch] ∧ hasAllSignatures complete_batch = true
  ∧ ∃ w1 n w2,
      processReceivedProposal [complete_batch] (idle one_available) = Returned () w1
      ∧ insert complete_batch (idle (data w1)) = Returned n w2
      ∧ batches_cache_ (data w2) = batches_cache_ (data w1)
      ∧ BatchesContext.batches_ (batches_cache_ (data w2)) !! batch_id complete_batch
        = None
      ∧ is_Some (BatchesContext.batches_ (used_batches_cache_ (data w2))
                   !! batch_id complete_batch).
Proof.
  assert (complete_batch ∈ [complete_batch]) as H1 by (by left).
  split; [exact H1|]. split; [reflexivity|].
  exact (X17_claimed_batch_stays_out [complete_batch] complete_batch
           one_available H1 eq_refl).
Defined.

Lemma erase_entry_size rh it st :
  (size (mst_expirations_ (erase_entry rh it st)) ≤ size (mst_expirations_ st))%nat.
Proof.
  unfold erase_entry. cbn.
  rewrite map_size_delete.
  destruct (mst_expirations_ st !! timestamp it); simpl; lia.
Qed.

(** X18.  The pending store does not look at the available set: after
    [insert] of a batch that has all signatures, [insert] of a donor with the
    same reduced hash that lacks signatures returns, and the cache then
    holds that identity twice, available and pending. *)
Theorem X18_pending_ignores_available (b p : TransactionBatch) (c : t) :
  hasAllSignatures b = true → hasAllSignatures p = false →
  reducedHash p = reducedHash b →
  BatchesContext.batches_ (used_batches_cache_ c) !! batch_id b = None →
  (N.of_nat (size (mst_expirations_ (mst_state_ c))) < 2 ^ 64)%N →
  ∃ n1 w1 n2 w2 ts,
    insert b (idle c) = Returned n1 w1
    ∧ insert p (idle (data w1)) = Returned n2 w2
    ∧ n2 = n1
    ∧ is_Some (BatchesContext.batches_ (batches_cache_ (data w2)) !! reducedHash b)
    ∧ mst_pending_ (mst_state_ (data w2)) !! reducedHash b = Some (mkInfo p ts).
Proof.
  intros Hb Hp Hrh Hu Hsz.
  pose proof (run_insert_complete b c Hb) as Hrun1.
  set (c1 := insert_complete b c) in *.
  assert (mst_pending_ (mst_state_ c1) !! reducedHash p = None) as Hp1.
  { rewrite Hrh. unfold c1, insert_complete. cbn.
    destruct (mst_pending_ (mst_state_ c) !! reducedHash b) eqn:E; cbn;
      [apply lookup_delete_eq|done]. }
  assert ((N.of_nat (size (mst_expirations_ (mst_state_ c1))) < 2 ^ 64)%N) as Hsz1.
  { unfold c1, insert_complete. cbn.
    destruct (mst_pending_ (mst_state_ c) !! reducedHash b) as [it|]; [|done].
    pose proof (erase_entry_size (reducedHash b) it (mst_state_ c)). lia. }
  destruct (probe_ready _ Hsz1) as (ts & Hts & _).
  rewrite <- (oldestTimestamp_zero p) in Hts.
  pose proof (run_insert_new p c1 ts Hp Hp1 Hts) as Hrun2.
  eexists _, _, _, _, ts. split; [exact Hrun1|]. split; [exact Hrun2|].
  cbn. split_and!.
  - done.
  - unfold c1, insert_complete. cbn. rewrite Hu. apply insert_holds.
  - rewrite <- Hrh. apply lookup_insert_eq.
Qed.

Lemma X18_witness :
  hasAllSignatures complete_batch = true ∧ hasAllSignatures partial_alice = false
  ∧ ∃ n1 w1 n2 w2 ts,
      insert complete_batch (idle empty) = Returned n1 w1
      ∧ insert partial_alice (idle (data w1)) = Returned n2 w2
      ∧ n2 = n1
      ∧ is_Some (BatchesContext.batches_ (batches_cache_ (data w2))
                   !! reducedHash complete_batch)
      ∧ mst_pending_ (mst_state_ (data w2)) !! reducedHash complete_batch
        = Some (mkInfo partial_alice ts).
Proof.
  split; [reflexivity|]. split; [reflexivity|].
  apply (X18_pending_ignores_available complete_batch partial_alice empty);
    reflexivity.
Defined.

End insert_more.

(** ** Silent merges, promotion, locks and the sets along the methods *)

Section methods_more.
Import BatchesCache.

Lemma info_eta (it : BatchInfo) : mkInfo (batch it) (timestamp it) = it.
Proof. by destruct it. Qed.

(** X19.  A donor that lacks signatures and brings none that the pending
    batch of its reduced hash does not have is absorbed silently: [insert]
    returns the count of available transactions, sends no notification and
    leaves both indices of the pending store and both sets as they were;
    only [mst_diff] is emptied. *)
Theorem X19_known_signatures_are_silent (p : TransactionBatch) (c : t)
    (it : BatchInfo) :
  hasAllSignatures p = false →
  mst_pending_ (mst_state_ c) !! reducedHash p = Some it →
  donor_covered (transactions (batch it)) (transactions p) →
  ∃ w,
    insert p (idle c) = Returned (BatchesContext.tx_count_ (batches_cache_ c)) w
    ∧ notifications (log w) = []
    ∧ data w = set_mst (mkMST (mst_pending_ (mst_state_ c))
                              (mst_expirations_ (mst_state_ c)) []) c.
Proof.
  intros Hp Hl Hcov.
  destruct (mergeSignaturesInBatch_flag (batch it) p []) as [H1 H2].
  apply H1 in Hcov. specialize (H2 Hcov).
  eexists. split; [by eapply run_insert_same|]. cbn. split; [done|].
  unfold merged_state. by rewrite info_eta, insert_id.
Qed.

Lemma X19_witness :
  hasAllSignatures partial_alice = false
  ∧ mst_pending_ (mst_state_ one_pending) !! reducedHash partial_alice
    = Some (mkInfo partial_alice 0)
  ∧ ∃ w,
      insert partial_alice (idle one_pending)
      = Returned (BatchesContext.tx_count_ (batches_cache_ one_pending)) w
      ∧ notifications (log w) = []
      ∧ data w = set_mst (mkMST (mst_pending_ (mst_state_ one_pending))
                                (mst_expirations_ (mst_state_ one_pending)) [])
                         one_pending.
Proof.
  assert (mst_pending_ (mst_state_ one_pending) !! reducedHash partial_alice
          = Some (mkInfo partial_alice 0)) as Hl by (by vm_compute).
  split; [reflexivity|]. split; [exact Hl|].
  apply (X19_known_signatures_are_silent partial_alice one_pending _ eq_refl Hl).
  unfold donor_covered. cbn. constructor; [|constructor]. by intros x Hx.
Defined.

(** X20.  Called by a thread that owns no lock, [insertMSTCache] with a
    donor that completes the pending batch of its reduced hash returns: the
    entry leaves both indices of the pending store, one
    [kOnMstPreparedBatches] is sent, and the used set is not looked at: it
    keeps its identities, its count and every batch of another identity.
    The merged batch enters the available set, whose count grows by its size
    modulo 2^64, unless the available set holds its identity already: then
    the available set keeps its identities and its count. *)
Theorem X20_promotion_by_insertMSTCache (b : TransactionBatch) (c : t)
    (it : BatchInfo) (target : TransactionBatch) (diff : list nat) :
  mst_pending_ (mst_state_ c) !! reducedHash b = Some it →
  mergeSignaturesInBatch (batch it) b [] = (target, true, diff) →
  hasAllSignatures target = true →
  ∃ w,
    insertMSTCache b (idle c) = Returned () w
    ∧ mst_pending_ (mst_state_ (data w))
      = delete (reducedHash b) (mst_pending_ (mst_state_ c))
    ∧ mst_expirations_ (mst_state_ (data w))
      = delete (timestamp it) (mst_expirations_ (mst_state_ c))
    ∧ same_but (reducedHash b) (used_batches_cache_ c) (used_batches_cache_ (data w))
    ∧ prepared_count (log w) = 1%nat
    ∧ (BatchesContext.batches_ (batches_cache_ c) !! batch_id target = None →
       batches_cache_ (data w)
       = BatchesContext.mk
           (<[batch_id target := target]>
              (BatchesContext.batches_ (batches_cache_ c)))
           (u64 (BatchesContext.tx_count_ (batches_cache_ c) + txs_size target)))
    ∧ (is_Some (BatchesContext.batches_ (batches_cache_ c) !! batch_id target) →
       same_but (reducedHash b) (batches_cache_ c) (batches_cache_ (data w))).
Proof.
  intros Hl Hm Hall. eexists.
  split; [by eapply run_insertMSTCache_completed|]. cbn. split_and!.
  - by rewrite delete_insert_eq.
  - done.
  - apply same_but_refl.
  - done.
  - intros Ha. by rewrite insert_absent.
  - intros Ha. rewrite insert_present by done. apply same_but_refl.
Qed.

Lemma X20_witness :
  let c := pending_and_claimed partial_alice in
  BatchesContext.batches_ (used_batches_cache_ c) !! 100%N = Some partial_alice
  ∧ ∃ w,
      insertMSTCache partial_bob (idle c) = Returned () w
      ∧ mst_pending_ (mst_state_ (data w))
        = delete (reducedHash partial_bob) (mst_pending_ (mst_state_ c))
      ∧ same_but (reducedHash partial_bob) (used_batches_cache_ c)
          (used_batches_cache_ (data w))
      ∧ prepared_count (log w) = 1%nat
      ∧ batches_cache_ (data w)
        = BatchesContext.mk
            (<[batch_id complete_batch := complete_batch]>
               (BatchesContext.batches_ (batches_cache_ c)))
            (u64 (BatchesContext.tx_count_ (batches_cache_ c)
                  + txs_size complete_batch)).
Proof.
  intros c. split; [by vm_compute|].
  assert (mst_pending_ (mst_state_ c) !! reducedHash partial_bob
          = Some (mkInfo partial_alice 0)) as Hl by (by vm_compute).
  assert (mergeSignaturesInBatch (batch (mkInfo partial_alice 0)) partial_bob []
          = (complete_batch, true, [0%nat])) as Hm by (by vm_compute).
  destruct (X20_promotion_by_insertMSTCache partial_bob c _ _ _ Hl Hm
              eq_refl) as (w & H1 & H2 & _ & H4 & H5 & H6 & _).
  exists w. split_and!; [done|done|done|done|]. apply H6. by vm_compute.
Defined.

Lemma calm_returned {A} (m : M A) c a l :
  m (idle c) = Returned a (mkWorld (data (world_of (m (idle c)))) false false l) →
  lock_order_ok false l = true → calm m c.
Proof.
  intros Hrun Hl. unfold calm. rewrite Hrun. cbn. split; [done|].
  by intros a' w [= _ <-].
Qed.

Lemma calm_insertMSTCache b c : calm (insertMSTCache b) c.
Proof.
  destruct (mst_pending_ (mst_state_ c) !! reducedHash b) as [it|] eqn:Hp.
  - destruct (mergeSignaturesInBatch (batch it) b []) as [[target ins] diff] eqn:Em.
    destruct ins; [destruct (hasAllSignatures target) eqn:Hall|].
    + eapply calm_returned; [|shelve].
      by rewrite (run_insertMSTCache_completed _ _ _ _ _ Hp Em Hall).
    + eapply calm_returned; [|shelve].
      by rewrite (run_insertMSTCache_updated _ _ _ _ _ Hp Em Hall).
    + eapply calm_returned; [|shelve].
      by rewrite (run_insertMSTCache_same _ _ _ _ _ Hp Em).
  - destruct (probe (mst_expirations_ (mst_state_ c)) (oldestTimestamp b)
                (S (size (mst_expirations_ (mst_state_ c))))) as [ts|] eqn:Hts.
    + eapply calm_returned; [|shelve].
      by rewrite (run_insertMSTCache_new _ _ _ Hp Hts).
    + unfold calm. run. rewrite Hp, Hts. by split.
  Unshelve. all: done.
Qed.

(** X21.  Every method but [insert], called by a thread that owns no lock,
    keeps the order of the locks ([L_pending] is not acquired while
    [L_cache] is owned) and owns no lock when it returns; the three readers
    leave the cache as it is. *)
Theorem X21_other_methods_keep_the_lock_order (c : t) :
  (∀ hashes, calm (remove hashes) c)
  ∧ (∀ batches, calm (processReceivedProposal batches) c)
  ∧ (∀ b, calm (removeMSTCache b) c)
  ∧ (∀ hashes, calm (removeMSTCache_hashes hashes) c)
  ∧ (∀ b, calm (insertMSTCache b) c)
  ∧ (∀ f, calm (forCachedBatches f) c)
  ∧ calm isEmpty c ∧ calm txsCount c ∧ calm availableTxsCount c
  ∧ data (world_of (isEmpty (idle c))) = c
  ∧ data (world_of (txsCount (idle c))) = c
  ∧ data (world_of (availableTxsCount (idle c))) = c.
Proof.
  split_and!; try reflexivity.
  - intros hashes. eapply calm_returned; [by rewrite run_remove|done].
  - intros batches. by eapply calm_returned.
  - intros b. eapply calm_returned; [by rewrite run_removeMSTCache|done].
  - intros hashes. by eapply calm_returned.
  - intros b. apply calm_insertMSTCache.
  - intros f. by eapply calm_returned.
  - by eapply calm_returned.
  - by eapply calm_returned.
  - by eapply calm_returned.
Qed.

(** X22.  In every state that [insert], [remove] and
    [processReceivedProposal] produce from the empty cache, each of the two
    sets stores every batch under its reduced hash, and no identity is in
    both the available and the used set. *)
Theorem X22_available_and_used_stay_apart (c : t) :
  api_reachable c →
  BatchesContext.keyed (BatchesContext.batches_ (batches_cache_ c))
  ∧ BatchesContext.keyed (BatchesContext.batches_ (used_batches_cache_ c))
  ∧ BatchesContext.batches_ (batches_cache_ c)
      ##ₘ BatchesContext.batches_ (used_batches_cache_ c).
Proof. apply api_reachable_sets. Qed.

Lemma X22_witness :
  let c := data (exec (call_insert complete_batch) (idle empty)) in
  api_reachable c
  ∧ BatchesContext.keyed (BatchesContext.batches_ (batches_cache_ c))
  ∧ BatchesContext.keyed (BatchesContext.batches_ (used_batches_cache_ c))
  ∧ BatchesContext.batches_ (batches_cache_ c)
      ##ₘ BatchesContext.batches_ (used_batches_cache_ c).
Proof.
  assert (api_reachable (data (exec (call_insert complete_batch) (idle empty))))
    as Hr by apply api_insert, api_empty.
  split; [exact Hr|]. exact (X22_available_and_used_stay_apart _ Hr).
Defined.

End methods_more.
